(** * Detection Probability notebook: the [Detector] class

    A shallow embedding of the one piece of code of the notebook
    "Probability of Detection of Malcode Bytes in a Page":

<<
    class Detector(object):
        def __init__(self, n, k):
            self.n = n
            self.k = k

        def __call__(self, s):
            prob = math.pow((self.n-self.k)/self.n, s)
            return 1.0 - prob
>>

    [n], [k] and [s] are Python integers (unbounded, [Z] here).  The
    arithmetic of [__call__] is binary64 floating point: [/] on two integers
    is true division, [math.pow] converts its integer argument to a double and
    calls the C library, and [1.0 - prob] is a double subtraction.  A double is
    a [spec_float] of the Standard Library.  The division, the conversion and
    the subtraction are the exact rational result rounded to nearest, ties to
    even ([round_Q]), as IEEE 754 requires of them.  The power is the C
    library's, which no standard requires to round correctly: the class is
    embedded once against the library that does ([float_pow_int]) and once
    against any library within an error bound (module [Libm]); what depends
    on the value of a power is proved of the second. *)

From Stdlib Require Import ZArith QArith Qreduction Qround Qpower Qabs Bool Lia Lqa.
From Stdlib Require Import List.
Import ListNotations.
From Stdlib.Floats Require Import SpecFloat.

Local Open Scope Z_scope.

(** ** Binary64 values and rounding *)

Module Binary64.

Definition prec : Z := 53.
Definition emax : Z := 1024.

(** The exponent of the least subnormal, [-1074]. *)
Definition emin : Z := 3 - emax - prec.

Definition is_finite (x : spec_float) : bool :=
  match x with
  | S754_zero _ | S754_finite _ _ _ => true
  | S754_infinity _ | S754_nan => false
  end.

Definition is_zero (x : spec_float) : bool :=
  match x with
  | S754_zero _ => true
  | _ => false
  end.

Definition sign_of (x : spec_float) : bool :=
  match x with
  | S754_zero s | S754_infinity s | S754_finite s _ _ => s
  | S754_nan => false
  end.

(** The rational a finite double denotes, in lowest terms; [0] for the
    others. *)
Definition SF2Q (x : spec_float) : Q :=
  match x with
  | S754_finite s m e =>
      Qred (((if s then Zneg m else Zpos m) # 1) * Qpower 2 e)
  | _ => 0%Q
  end.

Definition one : spec_float := S754_finite false 4503599627370496 (-52).

(** [Qlog2 q] is the integer [e] with [2^e <= q < 2^(e+1)], for [0 < q]. *)
Definition Qlog2 (q : Q) : Z :=
  let l := Z.log2 (Qnum q) - Z.log2 (Zpos (Qden q)) in
  if Qle_bool (Qpower 2 l) q then l else l - 1.

(** The exponent of the last kept bit of a double near [q]. *)
Definition cexp (q : Q) : Z := Z.max (Qlog2 q + 1 - prec) emin.

(** Nearest integer, a tie goes to the even one. *)
Definition rne (q : Q) : Z :=
  let f := Qfloor q in
  match Qcompare (q - inject_Z f) (1 # 2) with
  | Lt => f
  | Eq => if Z.even f then f else f + 1
  | Gt => f + 1
  end.

(** Mantissa of [q] rounded at the exponent [cexp q]. *)
Definition round_mant (q : Q) : Z := rne (q * Qpower 2 (- cexp q)).

(** [round_Q neg q] is the double nearest to the magnitude [q >= 0], with sign
    [neg]: a zero when [q] is zero or rounds to zero, an infinity when the
    rounded value needs an exponent above [emax]. *)
Definition round_Q (neg : bool) (q : Q) : spec_float :=
  if Qle_bool q 0 then S754_zero neg
  else
    match round_mant q with
    | Zpos m =>
        let '(m', e') :=
          if Z.eqb (Zpos m) (2 ^ prec)
          then (Z.to_pos (2 ^ (prec - 1)), cexp q + 1)
          else (m, cexp q) in
        if Z.leb e' (emax - prec) then S754_finite neg m' e'
        else S754_infinity neg
    | _ => S754_zero neg
    end.

(** Rounding of a signed rational; an exact zero is [+0]. *)
Definition round_signed (q : Q) : spec_float :=
  round_Q (negb (Qle_bool 0 q)) (Qabs q).

(** [x - y] on doubles.  Two finite non-zero operands give the rounded exact
    difference; a zero or non-finite operand is a case of the table of
    [SFsub], which rounds nothing there. *)
Definition float_sub (x y : spec_float) : spec_float :=
  match x, y with
  | S754_finite _ _ _, S754_finite _ _ _ => round_signed (SF2Q x - SF2Q y)
  | _, _ => SFsub prec emax x y
  end.

(** [x] raised to the integer [n], correctly rounded: what a C library whose
    [pow] rounds to nearest returns on a finite [x] and an integer-valued
    exponent (Annex F of the C standard for a zero [x]).  The platform's
    [pow] may return the neighbouring double instead; [Libm] below covers
    it. *)
Definition float_pow_int (x : spec_float) (n : Z) : spec_float :=
  if Z.eqb n 0 then one
  else
    match x with
    | S754_zero s =>
        if Z.ltb n 0 then S754_infinity (s && Z.odd n)
        else S754_zero (s && Z.odd n)
    | S754_finite s _ _ => round_Q (s && Z.odd n) (Qpower (Qabs (SF2Q x)) n)
    | S754_infinity s =>
        if Z.ltb n 0 then S754_zero (s && Z.odd n)
        else S754_infinity (s && Z.odd n)
    | S754_nan => S754_nan
    end.

(** The integer an integer-valued double denotes. *)
Definition SF2Z (y : spec_float) : Z := Qfloor (SF2Q y).

(** The value [round_Q] aims at, before the exponent range is checked. *)
Definition rval (q : Q) : Q := inject_Z (round_mant q) * Qpower 2 (cexp q).

Definition sgn (neg : bool) (q : Q) : Q := if neg then (- q)%Q else q.

(** An integer as the Standard Library rounds it to a double. *)
Definition z2f (a : Z) : spec_float := binary_normalize prec emax a 0 false.

(** The largest finite double, [(2^53 - 1) * 2^971]. *)
Definition max_float : Q := inject_Z ((2 ^ prec - 1) * 2 ^ (emax - prec)).

End Binary64.

Import Binary64.

(** ** Python: exceptions, int to float, true division, [math.pow] *)

Inductive exn : Set :=
  | ZeroDivisionError
  | OverflowError
  | ValueError.

Inductive result (A : Type) : Type :=
  | Ok (a : A)
  | Raise (e : exn).

Arguments Ok {A} a.
Arguments Raise {A} e.

(** [float(s)] of an [int] (PyLong_AsDouble): the nearest double, or
    [OverflowError: int too large to convert to float]. *)
Definition float_of_int (s : Z) : result spec_float :=
  let r := round_Q (Z.ltb s 0) (inject_Z (Z.abs s)) in
  if is_finite r then Ok r else Raise OverflowError.

(** [a / b] on two [int]s: the correctly rounded quotient,
    [ZeroDivisionError] for [b = 0], [OverflowError] when the quotient is too
    large for a double. *)
Definition int_true_div (a b : Z) : result spec_float :=
  if Z.eqb b 0 then Raise ZeroDivisionError
  else
    let r := round_Q (xorb (Z.ltb a 0) (Z.ltb b 0))
                     (Z.abs a # Z.to_pos (Z.abs b)) in
    if is_finite r then Ok r else Raise OverflowError.

(** [math.pow(x, s)] on a double [x] and an [int] [s], the call of this
    program.  [s] is converted first, so the exponent handed to the C library
    is the integer-valued double [float(s)].  A NaN or infinite [x] is answered
    by the wrapper itself; a finite one goes to the C library's [pow], whose
    NaN result is a [ValueError] and whose infinite result is a [ValueError]
    for a zero [x] (division by zero) and an [OverflowError] otherwise.  Here
    the library is the correctly rounded one; [Libm.math_pow] is the same
    wrapper over any library. *)
Definition math_pow (x : spec_float) (s : Z) : result spec_float :=
  match float_of_int s with
  | Raise e => Raise e
  | Ok y =>
      let r := float_pow_int x (SF2Z y) in
      if is_finite x then
        match r with
        | S754_nan => Raise ValueError
        | S754_infinity _ =>
            if is_zero x then Raise ValueError else Raise OverflowError
        | _ => Ok r
        end
      else Ok r
  end.

(** ** The class *)

Record Detector : Set := { n : Z; k : Z }.

(** A method runs on the instance it is bound to: it may read and assign the
    attributes and it returns or raises. *)
Definition method (A : Type) : Type := Detector -> Detector * result A.

Definition ret {A : Type} (a : A) : method A := fun self => (self, Ok a).

Definition bind {A B : Type} (m : method A) (f : A -> method B) : method B :=
  fun self =>
    match m self with
    | (self', Ok a) => f a self'
    | (self', Raise e) => (self', Raise e)
    end.

Definition lift {A : Type} (r : result A) : method A := fun self => (self, r).

Definition get_n : method Z := fun self => (self, Ok (n self)).
Definition get_k : method Z := fun self => (self, Ok (k self)).
Definition set_n (v : Z) : method unit :=
  fun self => ({| n := v; k := k self |}, Ok tt).
Definition set_k (v : Z) : method unit :=
  fun self => ({| n := n self; k := v |}, Ok tt).

Notation "x <- m ;; f" := (bind m (fun x => f))
  (at level 61, m at next level, right associativity).
Notation "m ;;; f" := (bind m (fun _ => f))
  (at level 61, right associativity).

(** [__init__]: two assignments, nothing else. *)
Definition __init__ (n0 k0 : Z) : method unit :=
  set_n n0 ;;; set_k k0.

(** [__call__]: the quotient is evaluated first, then [math.pow] converts [s]
    and raises the power, then the subtraction. *)
Definition __call__ (s : Z) : method spec_float :=
  vn <- get_n ;;
  vk <- get_k ;;
  vn' <- get_n ;;
  base <- lift (int_true_div (vn - vk) vn') ;;
  prob <- lift (math_pow base s) ;;
  ret (float_sub one prob).

(** [Detector(n, k)]: a fresh instance handed to [__init__]. *)
Definition blank : Detector := {| n := 0; k := 0 |}.

Definition new_Detector (n0 k0 : Z) : result Detector :=
  match __init__ n0 k0 blank with
  | (self, Ok _) => Ok self
  | (_, Raise e) => Raise e
  end.

(** [Detector(n, k)(s)], the value or the exception. *)
Definition detectionProbability (n0 k0 s : Z) : result spec_float :=
  match new_Detector n0 k0 with
  | Ok self => snd (__call__ s self)
  | Raise e => Raise e
  end.

(** ** The formula of the specification *)

(** [p_success = (populationSize - markedCount) / populationSize], the
    single-draw miss probability, computed in floating point. *)
Definition p_success (n0 k0 : Z) : spec_float :=
  round_signed ((n0 - k0) # Z.to_pos n0).

(** [1 - p_success ^ sampleCount]. *)
Definition spec_detectionProbability (n0 k0 s : Z) : spec_float :=
  float_sub one (float_pow_int (p_success n0 k0) s).

(** A model the specification calls valid. *)
Definition valid_model (n0 k0 : Z) : Prop := 0 < n0 /\ 0 <= k0 <= n0.

(** The least [int] that [float] refuses: half an ulp above the largest
    double. *)
Definition float_int_limit : Z := 2 ^ 1024 - 2 ^ 970.

(** The integer that [float(s)] denotes. *)
Definition nearest_double (s : Z) : Z :=
  SF2Z (round_Q (Z.ltb s 0) (inject_Z (Z.abs s))).

(** A finite double in the closed interval [[0, 1]]. *)
Definition in_unit_interval (r : spec_float) : Prop :=
  is_finite r = true /\ (0 <= SF2Q r)%Q /\ (SF2Q r <= 1)%Q.

(** Order of two finite doubles. *)
Definition float_le (x y : spec_float) : Prop :=
  is_finite x = true /\ is_finite y = true /\ (SF2Q x <= SF2Q y)%Q.

Definition raised {A : Type} (r : result A) : bool :=
  match r with
  | Ok _ => false
  | Raise _ => true
  end.

(** ** The notebook's run

<<
    detect = Detector(4096, 100)
    for trials in range(10,110,10):
        print(f"For {trials} trials, probability of detection is {detect(trials)}")
>>
*)

(** [range(start, stop, step)], as the list a [for] loop walks; a zero [step]
    is a [ValueError]. *)
Definition py_range (start stop step : Z) : result (list Z) :=
  if Z.eqb step 0 then Raise ValueError
  else
    let len :=
      if Z.ltb 0 step then (stop - start + step - 1) / step
      else (start - stop - step - 1) / (- step) in
    Ok (map (fun i => start + step * Z.of_nat i) (seq 0 (Z.to_nat len))).

(** What one turn of the loop hands to [print]: the count and the value that
    the f-string formats. *)
Definition line : Type := (Z * spec_float)%type.

(** ** The C library's [pow]

    For a finite base [math.pow] calls the C library's [pow], which is not
    part of this repository and which the C standard does not require to
    round correctly: the GNU C library returns [pow(33/41, 2)],
    [pow(63/64, 9)] and [pow(1 - 2^-53, -1)] one unit in the last place away
    from the nearest double.  [Libm] is the class over an arbitrary [pow];
    what is assumed of that function is [Libm.accurate eta], with the error
    bound [eta] that each theorem needs.  The definitions above are the class
    linked against [Libm.nearest], the library that does round correctly
    (lemma [linked_nearest]). *)

Module Libm.

(** The double [float(s)], when the conversion succeeds. *)
Definition as_double (s : Z) : spec_float :=
  round_Q (Z.ltb s 0) (inject_Z (Z.abs s)).

Section Linked.
Variable pow : spec_float -> spec_float -> spec_float.

(** [math.pow(x, s)]: the conversion of [s], the wrapper's own answer for a
    NaN or infinite [x], and for a finite [x] the library's result with the
    wrapper's error mapping. *)
Definition math_pow (x : spec_float) (s : Z) : result spec_float :=
  match float_of_int s with
  | Raise e => Raise e
  | Ok y =>
      if is_finite x then
        let r := pow x y in
        match r with
        | S754_nan => Raise ValueError
        | S754_infinity _ =>
            if is_zero x then Raise ValueError else Raise OverflowError
        | _ => Ok r
        end
      else Ok (float_pow_int x (SF2Z y))
  end.

Definition __call__ (s : Z) : method spec_float :=
  vn <- get_n ;;
  vk <- get_k ;;
  vn' <- get_n ;;
  base <- lift (int_true_div (vn - vk) vn') ;;
  prob <- lift (math_pow base s) ;;
  ret (float_sub one prob).

Definition detectionProbability (n0 k0 s : Z) : result spec_float :=
  match new_Detector n0 k0 with
  | Ok self => snd (__call__ s self)
  | Raise e => Raise e
  end.

(** [1 - p_success ^ sampleCount], the power being the library's on the
    double [float(sampleCount)]. *)
Definition spec_detectionProbability (n0 k0 s : Z) : spec_float :=
  float_sub one (pow (p_success n0 k0) (as_double s)).

(** The loop: every turn calls the one instance bound to [detect] and prints;
    an exception ends the loop, and what was printed before it stays
    printed. *)
Fixpoint for_trials (trials : list Z) (detect : Detector) (out : list line)
  : Detector * list line * option exn :=
  match trials with
  | [] => (detect, out, None)
  | t :: rest =>
      match __call__ t detect with
      | (detect', Ok v) => for_trials rest detect' (out ++ [(t, v)])
      | (detect', Raise e) => (detect', out, Some e)
      end
  end.

(** The lines a run over [trials] prints when every call returns the value
    of the formula. *)
Definition formula_lines (detect : Detector) (trials : list Z) : list line :=
  map (fun t => (t, spec_detectionProbability (n detect) (k detect) t)) trials.

(** The cell: the instance after it, the lines printed, the exception if
    any. *)
Definition notebook_cell : result (Detector * list line * option exn) :=
  match new_Detector 4096 100 with
  | Raise e => Raise e
  | Ok detect =>
      match py_range 10 110 10 with
      | Raise e => Raise e
      | Ok trials => Ok (for_trials trials detect [])
      end
  end.

End Linked.

(** The part [eta] of a unit in the last place at [t]. *)
Definition slack (eta : Q) (t : Q) : Q := (eta * Qpower 2 (cexp t))%Q.

(** The order of the doubles with [+inf] on top; a NaN is below nothing and
    nothing is below it. *)
Definition below (a b : spec_float) : Prop :=
  match b with
  | S754_infinity false => a <> S754_nan
  | _ => float_le a b
  end.

(** [p] is a double near the exact power [x ^ N]: not below the double
    nearest to [x^N - eta * ulp] and not above the double nearest to
    [x^N + eta * ulp].  The nearest double to [x^N] is one such [p] for
    every [eta >= 0]; its neighbour on the other side of [x^N] is one only
    when [x^N] is within [eta] ulp of the midpoint of the two.  With
    [eta = 1/2] the two doubles around [x^N] are both allowed (an error below
    one ulp); with [eta = 1/4] the error is below [3/4] ulp, with
    [eta = 1/16] below [9/16] ulp. *)
Definition near_power (eta : Q) (x : spec_float) (N : Z) (p : spec_float)
  : Prop :=
  let t := Qpower (SF2Q x) N in
  below (round_Q false (t - slack eta t)) p /\
  below p (round_Q false (t + slack eta t)).

(** What is assumed of the library on the arguments this program hands it on
    a model that is valid or has [0 < k < n]: a base that is [+0.0] or a
    positive double, and an exponent that is the double of an integer.  The
    first three fields are cases that Annex F of the C standard fixes
    exactly ([pow(x, 0) = 1], [pow(1, y) = 1], and a zero or an infinity for
    a zero base); the fourth says that the result is a double and that it is
    near the exact power, within the bound [eta]. *)
Record accurate (eta : Q) (pow : spec_float -> spec_float -> spec_float)
  : Prop := {
  pow_exponent_zero : forall x : spec_float, pow x (S754_zero false) = one;
  pow_base_one : forall y : spec_float, pow one y = one;
  pow_base_zero : forall (sx : bool) (s : Z) (y : spec_float),
    float_of_int s = Ok y -> s <> 0 ->
    pow (S754_zero sx) y =
      if Z.ltb s 0 then S754_infinity (sx && Z.odd (SF2Z y))
      else S754_zero (sx && Z.odd (SF2Z y));
  pow_base_positive : forall (m : positive) (e : Z) (s : Z) (y : spec_float),
    valid_binary prec emax (S754_finite false m e) = true ->
    float_of_int s = Ok y -> s <> 0 ->
    valid_binary prec emax (pow (S754_finite false m e) y) = true /\
    near_power eta (S754_finite false m e) (SF2Z y)
      (pow (S754_finite false m e) y)
}.

(** The library that rounds correctly. *)
Definition nearest (x y : spec_float) : spec_float := float_pow_int x (SF2Z y).

End Libm.

(** [x] is the double that the decimal [d * 10^(-p)] of the recorded output
    stands for: a double in canonical form less than half a unit in its last
    place away from the decimal. *)
Definition reads_as (d : Z) (p : positive) (x : spec_float) : Prop :=
  match x with
  | S754_finite _ _ e =>
      valid_binary prec emax x = true /\
      (Qabs (SF2Q x - (d # 10 ^ p)) < (1 # 2) * Qpower 2 e)%Q
  | _ => False
  end.

(** ** The Z3 notebook

    Bit-vector terms are evaluated under a model: a [BitVec] of width [w] is an
    integer in [[0, 2^w)], arithmetic wraps around, and a constraint is a
    Boolean over the model. *)

Module Z3.

(** [BitVecVal(v, w)]: two's complement of [v] on [w] bits. *)
Definition BitVecVal (v w : Z) : Z := v mod 2 ^ w.

Definition bvadd (w a b : Z) : Z := (a + b) mod 2 ^ w.
Definition bvmul (w a b : Z) : Z := (a * b) mod 2 ^ w.
Definition bvneg (w a : Z) : Z := (- a) mod 2 ^ w.
Definition bvshl (w a b : Z) : Z := Z.shiftl a b mod 2 ^ w.
Definition bvand (a b : Z) : Z := Z.land a b.

(** [m5 = BitVecVal(-5,64)]. *)
Definition m5 : Z := BitVecVal (-5) 64.

(** [solve(x == -x, x != 0)] on [x = BitVec('x',16)]: the two constraints
    under a value of [x]. *)
Definition negation_puzzle (w x : Z) : bool :=
  Z.eqb x (bvneg w x) && negb (Z.eqb x (BitVecVal 0 w)).

(** The five 64-bit variables of the assembly example. *)
Record regs : Set :=
  { rax_1 : Z; rax_2 : Z; rax_3 : Z; rdi_0 : Z; rbx_1 : Z }.

Definition is_bv64 (m : regs) : Prop :=
  0 <= rax_1 m < 2 ^ 64 /\ 0 <= rax_2 m < 2 ^ 64 /\ 0 <= rax_3 m < 2 ^ 64 /\
  0 <= rdi_0 m < 2 ^ 64 /\ 0 <= rbx_1 m < 2 ^ 64.

(** A solver is the list of the constraints added to it. *)
Definition Solver : Type := list (regs -> bool).

Definition add (s : Solver) (c : regs -> bool) : Solver := s ++ [c].

Definition mask32 : Z := BitVecVal 4294967295 64.

(** The solver after the five [s.add] calls. *)
Definition s : Solver :=
  let s0 : Solver := [] in
  let s1 := add s0 (fun m => Z.eqb (rax_1 m) (rdi_0 m)) in
  let s2 := add s1 (fun m =>
    Z.eqb (rbx_1 m)
          (bvadd 64 (bvmul 64 (rax_1 m) (BitVecVal 2 64)) (BitVecVal 20 64))) in
  let s3 := add s2 (fun m => Z.eqb (rax_2 m) (bvadd 64 (rax_1 m) (rbx_1 m))) in
  let s4 := add s3 (fun m =>
    Z.eqb (rax_3 m) (bvshl 64 (rax_2 m) (BitVecVal 1 64))) in
  add s4 (fun m =>
    Z.eqb (bvand (rax_3 m) mask32) (BitVecVal 4096 64)).

(** A model satisfies a solver when every constraint holds under it;
    [s.check()] answers [sat] when some model does. *)
Definition satisfies (m : regs) (sv : Solver) : bool :=
  forallb (fun c => c m) sv.

(** The model [s.model()] printed. *)
Definition printed_model : regs :=
  {| rax_1 := 676; rax_3 := 4096; rax_2 := 2048; rbx_1 := 1372; rdi_0 := 676 |}.

End Z3.

(** * Lemmas *)

Section Pow2.
Local Open Scope Q_scope.

Lemma pow2_pos (e : Z) : 0 < Qpower 2 e.
Proof. apply Qpower_0_lt. reflexivity. Qed.

Lemma pow2_add (a b : Z) : Qpower 2 (a + b) == Qpower 2 a * Qpower 2 b.
Proof. apply Qpower_plus. discriminate. Qed.

Lemma pow2_cancel (a : Z) : Qpower 2 a * Qpower 2 (- a) == 1.
Proof. rewrite <- pow2_add, Z.add_opp_diag_r. reflexivity. Qed.

Lemma pow2_le (a b : Z) : (a <= b)%Z -> Qpower 2 a <= Qpower 2 b.
Proof. intros H. apply Qpower_le_compat_l; [exact H | discriminate]. Qed.

Lemma pow2_lt (a b : Z) : (a < b)%Z -> Qpower 2 a < Qpower 2 b.
Proof. intros H. apply Qpower_lt_compat_l; [exact H | reflexivity]. Qed.

Lemma pow2_succ (a : Z) : Qpower 2 (a + 1) == 2 * Qpower 2 a.
Proof. rewrite pow2_add. change (Qpower 2 1) with 2. ring. Qed.

Lemma pow2_inject (a : Z) : (0 <= a)%Z -> inject_Z (2 ^ a) == Qpower 2 a.
Proof. intros H. apply (Zpower_Qpower 2 a H). Qed.

Lemma Qlog2_spec (q : Q) :
  0 < q -> Qpower 2 (Qlog2 q) <= q /\ q < Qpower 2 (Qlog2 q + 1).
Proof.
  intros Hq. destruct q as [nq dq]. unfold Qlog2. cbn [Qnum Qden].
  assert (Hn : (0 < nq)%Z) by (unfold Qlt in Hq; cbn in Hq; lia).
  set (a := Z.log2 nq). set (b := Z.log2 (Zpos dq)).
  destruct (Z.log2_spec nq Hn) as [Ha1 Ha2]. fold a in Ha1, Ha2.
  destruct (Z.log2_spec (Zpos dq) eq_refl) as [Hb1 Hb2]. fold b in Hb1, Hb2.
  assert (H0a : (0 <= a)%Z) by apply Z.log2_nonneg.
  assert (H0b : (0 <= b)%Z) by apply Z.log2_nonneg.
  assert (Ea : Qpower 2 a == Qpower 2 (a - b) * Qpower 2 b)
    by (rewrite <- pow2_add; now replace (a - b + b)%Z with a by ring).
  assert (Qa1 : Qpower 2 a <= inject_Z nq)
    by (rewrite <- pow2_inject by exact H0a; now rewrite <- Zle_Qle).
  assert (Qa2 : inject_Z nq < 2 * Qpower 2 a).
  { rewrite <- pow2_succ, <- pow2_inject by lia. now rewrite <- Zlt_Qlt. }
  assert (Qb1 : Qpower 2 b <= inject_Z (Zpos dq))
    by (rewrite <- pow2_inject by exact H0b; now rewrite <- Zle_Qle).
  assert (Qb2 : inject_Z (Zpos dq) < 2 * Qpower 2 b).
  { rewrite <- pow2_succ, <- pow2_inject by lia. now rewrite <- Zlt_Qlt. }
  assert (Eq : (nq # dq) * inject_Z (Zpos dq) == inject_Z nq).
  { rewrite (Qmake_Qdiv nq dq). field. discriminate. }
  pose proof (pow2_pos (a - b)) as Pl. pose proof (pow2_pos b) as Pb.
  set (L := Qpower 2 (a - b)) in *. set (B := Qpower 2 b) in *.
  set (A := Qpower 2 a) in *. set (D := inject_Z (Zpos dq)) in *.
  set (N := inject_Z nq) in *. set (q := nq # dq) in *.
  destruct (Qle_bool L q) eqn:E.
  - apply Qle_bool_iff in E. split; [exact E|].
    rewrite pow2_succ. fold L. nra.
  - assert (E' : q < L).
    { apply Qnot_le_lt. intros H. apply Qle_bool_iff in H. congruence. }
    replace (a - b - 1 + 1)%Z with (a - b)%Z by ring. fold L.
    split; [|exact E'].
    assert (E2 : L == 2 * Qpower 2 (a - b - 1)).
    { unfold L. rewrite <- pow2_succ. now replace (a - b - 1 + 1)%Z with (a - b)%Z by ring. }
    pose proof (pow2_pos (a - b - 1)) as Pl'.
    set (L' := Qpower 2 (a - b - 1)) in *. nra.
Qed.
End Pow2.

Section Rne.
Local Open Scope Q_scope.

Lemma Qlog2_unique (q : Q) (e : Z) :
  Qpower 2 e <= q -> q < Qpower 2 (e + 1) -> Qlog2 q = e.
Proof.
  intros H1 H2.
  assert (Hq : 0 < q) by (pose proof (pow2_pos e); lra).
  destruct (Qlog2_spec q Hq) as [H3 H4].
  destruct (Z.lt_trichotomy (Qlog2 q) e) as [H | [H | H]]; [|exact H|].
  - pose proof (pow2_le (Qlog2 q + 1) e ltac:(lia)). lra.
  - pose proof (pow2_le (e + 1) (Qlog2 q) ltac:(lia)). lra.
Qed.

Lemma Qlog2_proper (x y : Q) : 0 < x -> x == y -> Qlog2 x = Qlog2 y.
Proof.
  intros Hx E. destruct (Qlog2_spec x Hx) as [H1 H2].
  symmetry. apply Qlog2_unique; rewrite <- E; assumption.
Qed.

Lemma Qlog2_mono (x y : Q) : 0 < x -> x <= y -> (Qlog2 x <= Qlog2 y)%Z.
Proof.
  intros Hx Hxy.
  destruct (Qlog2_spec x Hx) as [H1 H2].
  destruct (Qlog2_spec y ltac:(lra)) as [H3 H4].
  destruct (Z_le_gt_dec (Qlog2 x) (Qlog2 y)) as [H | H]; [exact H|].
  pose proof (pow2_le (Qlog2 y + 1) (Qlog2 x) ltac:(lia)). lra.
Qed.

Lemma cexp_mono (x y : Q) : 0 < x -> x <= y -> (cexp x <= cexp y)%Z.
Proof.
  intros Hx Hxy. pose proof (Qlog2_mono x y Hx Hxy). unfold cexp. lia.
Qed.

Lemma cexp_proper (x y : Q) : 0 < x -> x == y -> cexp x = cexp y.
Proof. intros Hx E. unfold cexp. now rewrite (Qlog2_proper x y Hx E). Qed.

Lemma rne_proper (x y : Q) : x == y -> rne x = rne y.
Proof.
  intros E. unfold rne. rewrite (Qfloor_comp x y E).
  assert (E' : x - inject_Z (Qfloor y) == y - inject_Z (Qfloor y))
    by now rewrite E.
  now rewrite (Qcompare_comp _ _ E' (1 # 2) (1 # 2) (Qeq_refl _)).
Qed.

Lemma rne_bounds (x : Q) : (Qfloor x <= rne x <= Qfloor x + 1)%Z.
Proof.
  unfold rne. destruct (Qcompare _ _); [destruct (Z.even _)| |]; lia.
Qed.

Lemma rne_Z (z : Z) : rne (inject_Z z) = z.
Proof.
  unfold rne. rewrite Qfloor_Z.
  destruct (Qcompare_spec (inject_Z z - inject_Z z) (1 # 2)) as [H | H | H];
    [exfalso; lra | reflexivity | exfalso; lra].
Qed.

Lemma rne_mono (x y : Q) : x <= y -> (rne x <= rne y)%Z.
Proof.
  intros Hxy.
  pose proof (Qfloor_resp_le x y Hxy) as Hf.
  destruct (Z.eq_dec (Qfloor x) (Qfloor y)) as [E | NE].
  - unfold rne. rewrite E.
    destruct (Qcompare_spec (x - inject_Z (Qfloor y)) (1 # 2)) as [Hx | Hx | Hx];
      destruct (Qcompare_spec (y - inject_Z (Qfloor y)) (1 # 2)) as [Hy | Hy | Hy];
      try (destruct (Z.even (Qfloor y))); try lia; exfalso; lra.
  - pose proof (rne_bounds x). pose proof (rne_bounds y). lia.
Qed.

Lemma rne_le_Z (x : Q) (z : Z) : x <= inject_Z z -> (rne x <= z)%Z.
Proof. intros H. rewrite <- (rne_Z z). now apply rne_mono. Qed.

Lemma rne_ge_Z (x : Q) (z : Z) : inject_Z z <= x -> (z <= rne x)%Z.
Proof. intros H. rewrite <- (rne_Z z). now apply rne_mono. Qed.

Lemma round_mant_proper (x y : Q) : 0 < x -> x == y -> round_mant x = round_mant y.
Proof.
  intros Hx E. unfold round_mant. rewrite (cexp_proper x y Hx E).
  apply rne_proper. now rewrite E.
Qed.

Lemma scaled_pow2 (a c : Z) : (c <= a)%Z ->
  Qpower 2 a * Qpower 2 (- c) == inject_Z (2 ^ (a - c)).
Proof.
  intros H. rewrite pow2_inject by lia. rewrite <- pow2_add.
  now replace (a + - c)%Z with (a - c)%Z by ring.
Qed.

Lemma round_mant_nonneg (q : Q) : 0 <= q -> (0 <= round_mant q)%Z.
Proof.
  intros H. apply rne_ge_Z. pose proof (pow2_pos (- cexp q)).
  change (inject_Z 0) with 0. nra.
Qed.

Lemma scaled_ge (q : Q) (a c : Z) :
  Qpower 2 a <= q -> (c <= a)%Z -> inject_Z (2 ^ (a - c)) <= q * Qpower 2 (- c).
Proof.
  intros H Hc. rewrite <- scaled_pow2 by exact Hc.
  apply Qmult_le_compat_r; [exact H | apply Qlt_le_weak, pow2_pos].
Qed.

Lemma scaled_le (q : Q) (a c : Z) :
  q <= Qpower 2 a -> (c <= a)%Z -> q * Qpower 2 (- c) <= inject_Z (2 ^ (a - c)).
Proof.
  intros H Hc. rewrite <- scaled_pow2 by exact Hc.
  apply Qmult_le_compat_r; [exact H | apply Qlt_le_weak, pow2_pos].
Qed.

(** In the normal range the mantissa has [prec] bits, or is [2^prec] after a
    carry. *)
Lemma round_mant_normal (q : Q) :
  0 < q -> (emin <= Qlog2 q + 1 - prec)%Z ->
  (2 ^ (prec - 1) <= round_mant q <= 2 ^ prec)%Z.
Proof.
  intros Hq Hn. destruct (Qlog2_spec q Hq) as [H1 H2].
  assert (Ec : cexp q = (Qlog2 q + 1 - prec)%Z) by (unfold cexp; lia).
  unfold round_mant. rewrite Ec. split.
  - apply rne_ge_Z.
    replace (prec - 1)%Z with (Qlog2 q - (Qlog2 q + 1 - prec))%Z by ring.
    apply scaled_ge; [exact H1 | unfold prec; lia].
  - apply rne_le_Z.
    replace prec with (Qlog2 q + 1 - (Qlog2 q + 1 - prec))%Z at 2 by ring.
    apply scaled_le; [apply Qlt_le_weak, H2 | unfold prec; lia].
Qed.

(** Below the normal range the mantissa has at most [prec - 1] bits, or is
    [2^(prec-1)], the least normal number. *)
Lemma round_mant_subnormal (q : Q) :
  0 < q -> (Qlog2 q + 1 - prec < emin)%Z ->
  (0 <= round_mant q <= 2 ^ (prec - 1))%Z.
Proof.
  intros Hq Hn. destruct (Qlog2_spec q Hq) as [H1 H2].
  assert (Ec : cexp q = emin) by (unfold cexp; lia).
  split; [apply round_mant_nonneg, Qlt_le_weak, Hq|].
  unfold round_mant. rewrite Ec. apply rne_le_Z.
  replace (prec - 1)%Z with (emin + prec - 1 - emin)%Z by ring.
  apply scaled_le; [|unfold prec; lia].
  pose proof (pow2_le (Qlog2 q + 1) (emin + prec - 1) ltac:(lia)). lra.
Qed.

(** The target value is monotone. *)
Lemma rval_mono (x y : Q) : 0 < x -> x <= y -> rval x <= rval y.
Proof.
  intros Hx Hxy. assert (Hy : 0 < y) by lra.
  pose proof (cexp_mono x y Hx Hxy) as Hc.
  destruct (Z.eq_dec (cexp x) (cexp y)) as [E | NE].
  - unfold rval, round_mant. rewrite E.
    apply Qmult_le_compat_r; [|apply Qlt_le_weak, pow2_pos].
    rewrite <- Zle_Qle. apply rne_mono.
    apply Qmult_le_compat_r; [exact Hxy | apply Qlt_le_weak, pow2_pos].
  - assert (Hlt : (cexp x < cexp y)%Z) by lia.
    assert (Hny : (emin <= Qlog2 y + 1 - prec)%Z) by (unfold cexp in *; lia).
    assert (Ecy : cexp y = (Qlog2 y + 1 - prec)%Z) by (unfold cexp; lia).
    assert (Hlog : (Qlog2 x + 1 <= Qlog2 y)%Z) by (unfold cexp in *; lia).
    destruct (Qlog2_spec x Hx) as [H1 H2].
    apply Qle_trans with (Qpower 2 (Qlog2 y)).
    + (* rval x <= 2^(Qlog2 y) *)
      assert (Hcx : (cexp x <= Qlog2 y)%Z) by (unfold prec in *; lia).
      assert (Hm : (round_mant x <= 2 ^ (Qlog2 y - cexp x))%Z).
      { apply rne_le_Z. apply scaled_le; [|exact Hcx].
        pose proof (pow2_le (Qlog2 x + 1) (Qlog2 y) Hlog). lra. }
      unfold rval. rewrite Zle_Qle in Hm.
      rewrite pow2_inject in Hm by lia.
      assert (E2 : Qpower 2 (Qlog2 y) == Qpower 2 (Qlog2 y - cexp x) * Qpower 2 (cexp x)).
      { rewrite <- pow2_add. now replace (Qlog2 y - cexp x + cexp x)%Z with (Qlog2 y) by ring. }
      rewrite E2. apply Qmult_le_compat_r; [exact Hm | apply Qlt_le_weak, pow2_pos].
    + (* 2^(Qlog2 y) <= rval y *)
      destruct (round_mant_normal y Hy Hny) as [Hm _].
      unfold rval. rewrite Zle_Qle in Hm. rewrite pow2_inject in Hm by (unfold prec; lia).
      assert (E2 : Qpower 2 (Qlog2 y) == Qpower 2 (prec - 1) * Qpower 2 (cexp y)).
      { rewrite <- pow2_add, Ecy. now replace (prec - 1 + (Qlog2 y + 1 - prec))%Z with (Qlog2 y) by ring. }
      rewrite E2. apply Qmult_le_compat_r; [exact Hm | apply Qlt_le_weak, pow2_pos].
Qed.
End Rne.

Section RoundQ.
Local Open Scope Q_scope.

Lemma Qle_bool_false (x y : Q) : Qle_bool x y = false <-> y < x.
Proof.
  split; intros H.
  - apply Qnot_le_lt. intros H'. apply Qle_bool_iff in H'. congruence.
  - destruct (Qle_bool x y) eqn:E; [|reflexivity].
    apply Qle_bool_iff in E. lra.
Qed.

Lemma round_mant_le (q : Q) : 0 < q -> (0 <= round_mant q <= 2 ^ prec)%Z.
Proof.
  intros Hq. destruct (Z_le_gt_dec emin (Qlog2 q + 1 - prec)) as [H | H].
  - pose proof (round_mant_normal q Hq H). unfold prec in *. lia.
  - pose proof (round_mant_subnormal q Hq ltac:(lia)). unfold prec in *. lia.
Qed.

Lemma rval_nonneg (q : Q) : 0 < q -> 0 <= rval q.
Proof.
  intros Hq. unfold rval. destruct (round_mant_le q Hq) as [H _].
  rewrite Zle_Qle in H. pose proof (pow2_pos (cexp q)).
  change (inject_Z 0) with 0 in H. nra.
Qed.

Lemma SF2Q_finite (neg : bool) (m : positive) (e : Z) :
  SF2Q (S754_finite neg m e) == sgn neg (inject_Z (Zpos m) * Qpower 2 e).
Proof.
  unfold SF2Q, sgn. rewrite Qred_correct. destruct neg; [|reflexivity].
  change (Z.neg m # 1) with (- inject_Z (Z.pos m)). ring.
Qed.

Lemma max_float_eq :
  max_float == Qpower 2 emax - Qpower 2 (emax - prec).
Proof. vm_compute. reflexivity. Qed.

Lemma max_float_lt : max_float < Qpower 2 emax.
Proof. vm_compute. reflexivity. Qed.

(** What [round_Q] returns on a positive magnitude: the target value when it
    is at most the largest double, an infinity when it reaches [2^emax]. *)
Lemma round_Q_spec (neg : bool) (q : Q) :
  0 < q ->
  (rval q <= max_float /\ is_finite (round_Q neg q) = true /\
   SF2Q (round_Q neg q) == sgn neg (rval q)) \/
  (Qpower 2 emax <= rval q /\ round_Q neg q = S754_infinity neg).
Proof.
  intros Hq. unfold round_Q.
  assert (E0 : Qle_bool q 0 = false) by now apply Qle_bool_false.
  rewrite E0. pose proof (round_mant_le q Hq) as [Hm0 Hm1].
  unfold rval. destruct (round_mant q) as [|m|m] eqn:Em; [| |lia].
  - left. split; [|split; [reflexivity|]].
    + change (inject_Z 0) with 0. rewrite Qmult_0_l. vm_compute. discriminate.
    + cbn [SF2Q]. change (inject_Z 0) with 0. destruct neg; cbn [sgn]; ring.
  - destruct (Z.eqb_spec (Zpos m) (2 ^ prec)) as [Ec | Ec].
    + (* carry *)
      assert (Ev : inject_Z (Zpos m) * Qpower 2 (cexp q) ==
                   inject_Z (Zpos (Z.to_pos (2 ^ (prec - 1)))) * Qpower 2 (cexp q + 1)).
      { rewrite Ec, pow2_succ. change (inject_Z (2 ^ prec)) with (2 * inject_Z (Zpos (Z.to_pos (2 ^ (prec - 1))))). ring. }
      assert (Ep : inject_Z (Zpos m) * Qpower 2 (cexp q) == Qpower 2 (cexp q + prec)).
      { rewrite Ec, pow2_add. change (inject_Z (2 ^ prec)) with (Qpower 2 prec). ring. }
      destruct (Z.leb_spec (cexp q + 1) (emax - prec)) as [Hl | Hl].
      * left. split; [|split; [reflexivity|]].
        -- rewrite Ep, max_float_eq.
           pose proof (pow2_le (cexp q + prec) (emax - 1) ltac:(lia)) as Hle.
           pose proof (pow2_succ (emax - 1)) as E1.
           replace (emax - 1 + 1)%Z with emax in E1 by ring.
           pose proof (pow2_le (emax - prec) (emax - 1) ltac:(unfold prec; lia)).
           lra.
        -- rewrite SF2Q_finite. destruct neg; cbn [sgn]; rewrite Ev; reflexivity.
      * right. split; [|reflexivity]. rewrite Ep. apply pow2_le. lia.
    + destruct (Z.leb_spec (cexp q) (emax - prec)) as [Hl | Hl].
      * left. split; [|split; [reflexivity|]].
        -- assert (Hlt : inject_Z (Zpos m) <= Qpower 2 prec - 1).
           { rewrite <- pow2_inject by (unfold prec; lia).
             change 1 with (inject_Z 1). unfold Qminus.
             rewrite <- inject_Z_opp, <- inject_Z_plus, <- Zle_Qle. lia. }
           pose proof (pow2_pos (cexp q)) as Pc.
           pose proof (pow2_le (cexp q) (emax - prec) Hl) as Hle.
           rewrite max_float_eq.
           assert (E1 : Qpower 2 emax == Qpower 2 prec * Qpower 2 (emax - prec)).
           { rewrite <- pow2_add. now replace (prec + (emax - prec))%Z with emax by ring. }
           rewrite E1. pose proof (pow2_pos (emax - prec)).
           assert (H1 : 1 <= Qpower 2 prec) by (vm_compute; discriminate).
           nra.
        -- rewrite SF2Q_finite. reflexivity.
      * right. split; [|reflexivity].
        assert (Hn : (emin <= Qlog2 q + 1 - prec)%Z)
          by (unfold cexp, emin, emax, prec in *; lia).
        destruct (round_mant_normal q Hq Hn) as [Hlo _]. rewrite Em in Hlo.
        rewrite Zle_Qle, pow2_inject in Hlo by (unfold prec; lia).
        pose proof (pow2_pos (cexp q)) as Pc.
        pose proof (pow2_le emax (prec - 1 + cexp q) ltac:(lia)) as Hle.
        rewrite pow2_add in Hle. pose proof (pow2_pos (prec - 1)). nra.
Qed.

Lemma round_Q_zero (neg : bool) (q : Q) : q <= 0 -> round_Q neg q = S754_zero neg.
Proof. intros H. unfold round_Q. apply Qle_bool_iff in H. now rewrite H. Qed.

Lemma round_Q_proper (neg : bool) (x y : Q) : x == y -> round_Q neg x = round_Q neg y.
Proof.
  intros E. unfold round_Q. rewrite (Qleb_comp x y E 0 0 (Qeq_refl 0)).
  destruct (Qle_bool y 0) eqn:E0; [reflexivity|].
  apply Qle_bool_false in E0. assert (Hx : 0 < x) by now rewrite E.
  now rewrite (round_mant_proper x y Hx E), (cexp_proper x y Hx E).
Qed.

(** Rounding is monotone: below a magnitude that rounds to a finite double,
    every magnitude rounds to a finite double that is not larger. *)
Lemma round_Q_mono (x y : Q) :
  x <= y -> is_finite (round_Q false y) = true ->
  is_finite (round_Q false x) = true /\
  SF2Q (round_Q false x) <= SF2Q (round_Q false y).
Proof.
  intros Hxy Hfy.
  destruct (Qlt_le_dec 0 x) as [Hx | Hx].
  - assert (Hy : 0 < y) by lra. pose proof (rval_mono x y Hx Hxy) as Hv.
    destruct (round_Q_spec false y Hy) as [(Hb & _ & Ey) | (_ & Ey)];
      [|rewrite Ey in Hfy; discriminate].
    destruct (round_Q_spec false x Hx) as [(_ & Hfx & Ex) | (Hb' & _)];
      [|exfalso; pose proof max_float_lt; lra].
    split; [exact Hfx|]. rewrite Ex, Ey. exact Hv.
  - rewrite (round_Q_zero false x Hx). split; [reflexivity|].
    cbn [SF2Q]. destruct (Qlt_le_dec 0 y) as [Hy | Hy].
    + destruct (round_Q_spec false y Hy) as [(_ & _ & Ey) | (_ & Ey)];
        [|rewrite Ey in Hfy; discriminate].
      rewrite Ey. apply (rval_nonneg y Hy).
    + rewrite (round_Q_zero false y Hy). cbn. lra.
Qed.

(** Above a magnitude that overflows, every magnitude overflows. *)
Lemma round_Q_overflow (neg : bool) (x y : Q) :
  x <= y -> round_Q false x = S754_infinity false ->
  round_Q neg y = S754_infinity neg.
Proof.
  intros Hxy Ex.
  destruct (Qlt_le_dec 0 x) as [Hx | Hx];
    [|rewrite (round_Q_zero false x Hx) in Ex; discriminate].
  assert (Hy : 0 < y) by lra. pose proof (rval_mono x y Hx Hxy) as Hv.
  destruct (round_Q_spec false x Hx) as [(_ & Hf & _) | (Hb & _)];
    [rewrite Ex in Hf; discriminate|].
  destruct (round_Q_spec neg y Hy) as [(Hb' & _) | (_ & Ey)];
    [exfalso; pose proof max_float_lt; lra | exact Ey].
Qed.

(** The sign only labels the result. *)
Lemma round_Q_sign (neg : bool) (q : Q) :
  is_finite (round_Q neg q) = is_finite (round_Q false q) /\
  SF2Q (round_Q neg q) == sgn neg (SF2Q (round_Q false q)).
Proof.
  unfold round_Q. destruct (Qle_bool q 0).
  - split; [reflexivity|]. cbn. destruct neg; cbn; ring.
  - destruct (round_mant q) as [|m|m].
    + split; [reflexivity|]. cbn. destruct neg; cbn; ring.
    + destruct (Z.eqb _ _); destruct (Z.leb _ _); split; try reflexivity;
        destruct neg; cbn [sgn];
        first [rewrite !SF2Q_finite; cbn [sgn]; reflexivity | cbn; ring].
    + split; [reflexivity|]. cbn. destruct neg; cbn; ring.
Qed.

Lemma round_Q_nonneg (q : Q) : 0 <= SF2Q (round_Q false q).
Proof.
  destruct (Qlt_le_dec 0 q) as [Hq | Hq].
  - destruct (round_Q_spec false q Hq) as [(_ & _ & E) | (_ & E)]; rewrite E.
    + apply (rval_nonneg q Hq).
    + cbn. lra.
  - rewrite (round_Q_zero false q Hq). cbn. lra.
Qed.
End RoundQ.

Section UnitPowers.
Local Open Scope Q_scope.

Lemma Qpower_succ (q : Q) (a : Z) : (0 <= a)%Z -> Qpower q (a + 1) == Qpower q a * q.
Proof.
  intros Ha. rewrite Qpower_plus' by lia. now rewrite Qpower_1_r.
Qed.

Lemma Qpower_unit (q : Q) (a : Z) :
  0 <= q -> q <= 1 -> (0 <= a)%Z -> 0 <= Qpower q a /\ Qpower q a <= 1.
Proof.
  intros H0 H1 Ha. split; [now apply Qpower_0_le|].
  revert a Ha. apply natlike_ind.
  - cbn. lra.
  - intros a Ha IH. unfold Z.succ. rewrite Qpower_succ by exact Ha.
    pose proof (Qpower_0_le q a H0). nra.
Qed.

Lemma Qpower_unit_anti (q : Q) (a b : Z) :
  0 <= q -> q <= 1 -> (0 <= a <= b)%Z -> Qpower q b <= Qpower q a.
Proof.
  intros H0 H1 [Ha Hab].
  destruct (Z.eq_dec a b) as [-> | NE]; [lra|].
  replace b with (a + (b - a))%Z by ring. rewrite Qpower_plus' by lia.
  destruct (Qpower_unit q (b - a) H0 H1 ltac:(lia)) as [P0 P1].
  pose proof (Qpower_0_le q a H0). nra.
Qed.

End UnitPowers.

Section PythonOps.
Local Open Scope Q_scope.

Lemma round_Q_one : round_Q false 1 = one.
Proof. vm_compute. reflexivity. Qed.

Lemma SF2Q_one : SF2Q one == 1.
Proof. vm_compute. reflexivity. Qed.

(** A magnitude in [[0, 1]] rounds into [[0, 1]]. *)
Lemma round_Q_unit (q : Q) :
  0 <= q -> q <= 1 -> in_unit_interval (round_Q false q).
Proof.
  intros H0 H1.
  destruct (round_Q_mono q 1 H1) as [Hf Hle]; [now rewrite round_Q_one|].
  rewrite round_Q_one, SF2Q_one in Hle.
  split; [exact Hf | split; [apply round_Q_nonneg | exact Hle]].
Qed.

Lemma round_signed_nonneg (q : Q) : 0 <= q -> round_signed q = round_Q false q.
Proof.
  intros H. unfold round_signed. apply Qle_bool_iff in H as Hb. rewrite Hb.
  cbn [negb]. apply round_Q_proper, Qabs_pos, H.
Qed.


Lemma round_signed_proper (x y : Q) : x == y -> round_signed x = round_signed y.
Proof.
  intros E. unfold round_signed.
  rewrite (Qleb_comp 0 0 (Qeq_refl 0) x y E).
  apply round_Q_proper. now rewrite E.
Qed.

(** The quotient of a valid model. *)
Lemma quotient_valid (n0 k0 : Z) :
  valid_model n0 k0 ->
  int_true_div (n0 - k0) n0 = Ok (p_success n0 k0) /\
  p_success n0 k0 = round_Q false ((n0 - k0) # Z.to_pos n0) /\
  in_unit_interval (p_success n0 k0).
Proof.
  intros [Hn [Hk0 Hk1]].
  assert (Hq0 : 0 <= (n0 - k0) # Z.to_pos n0) by (unfold Qle; cbn; lia).
  assert (Hq1 : (n0 - k0) # Z.to_pos n0 <= 1).
  { unfold Qle. cbn. rewrite Z2Pos.id by exact Hn. lia. }
  assert (Ep : p_success n0 k0 = round_Q false ((n0 - k0) # Z.to_pos n0))
    by (unfold p_success; now apply round_signed_nonneg).
  pose proof (round_Q_unit _ Hq0 Hq1) as Hu.
  split; [|split; [exact Ep | now rewrite Ep]].
  unfold int_true_div.
  destruct (Z.eqb_spec n0 0) as [E | _]; [lia|].
  replace (n0 - k0 <? 0)%Z with false by (symmetry; apply Z.ltb_ge; lia).
  replace (n0 <? 0)%Z with false by (symmetry; apply Z.ltb_ge; lia).
  cbn [xorb]. rewrite (Z.abs_eq (n0 - k0)), (Z.abs_eq n0) by lia.
  rewrite <- Ep in Hu |- *. destruct Hu as [Hf _]. now rewrite Hf.
Qed.

(** ** [float(s)] *)

Lemma round_limit : round_Q false (inject_Z float_int_limit) = S754_infinity false.
Proof. vm_compute. reflexivity. Qed.

Lemma round_below_limit :
  is_finite (round_Q false (inject_Z (float_int_limit - 1))) = true.
Proof. vm_compute. reflexivity. Qed.

Lemma round_int_finite (neg : bool) (a : Z) :
  (a < float_int_limit)%Z -> is_finite (round_Q neg (inject_Z a)) = true.
Proof.
  intros H. destruct (round_Q_sign neg (inject_Z a)) as [-> _].
  apply (round_Q_mono (inject_Z a) (inject_Z (float_int_limit - 1))).
  - rewrite <- Zle_Qle. lia.
  - exact round_below_limit.
Qed.

Lemma round_int_overflow (neg : bool) (a : Z) :
  (float_int_limit <= a)%Z -> round_Q neg (inject_Z a) = S754_infinity neg.
Proof.
  intros H. apply (round_Q_overflow neg (inject_Z float_int_limit)).
  - now rewrite <- Zle_Qle.
  - exact round_limit.
Qed.

Lemma float_of_int_ok (s : Z) :
  (- float_int_limit < s < float_int_limit)%Z ->
  float_of_int s = Ok (round_Q (s <? 0)%Z (inject_Z (Z.abs s))).
Proof.
  intros H. unfold float_of_int. rewrite round_int_finite by lia. reflexivity.
Qed.

Lemma float_of_int_overflow (s : Z) :
  (s <= - float_int_limit \/ float_int_limit <= s)%Z ->
  float_of_int s = Raise OverflowError.
Proof.
  intros H. unfold float_of_int. rewrite round_int_overflow by lia. reflexivity.
Qed.

(** An integer that needs no bit below the units is converted exactly. *)
Lemma rval_int_exact (a : Z) :
  (0 < a)%Z -> (cexp (inject_Z a) <= 0)%Z -> rval (inject_Z a) == inject_Z a.
Proof.
  intros Ha Hc. unfold rval, round_mant.
  assert (E : inject_Z a * Qpower 2 (- cexp (inject_Z a)) ==
              inject_Z (a * 2 ^ (- cexp (inject_Z a)))).
  { rewrite inject_Z_mult, pow2_inject by lia. reflexivity. }
  rewrite (rne_proper _ _ E), rne_Z, inject_Z_mult, pow2_inject by lia.
  rewrite <- Qmult_assoc, (Qmult_comm (Qpower 2 (- _))), pow2_cancel. ring.
Qed.

(** What a converted integer denotes is an integer. *)
Lemma rval_int_integral (a : Z) :
  (0 < a)%Z -> exists z : Z, rval (inject_Z a) == inject_Z z.
Proof.
  intros Ha. destruct (Z_le_gt_dec (cexp (inject_Z a)) 0) as [Hc | Hc].
  - exists a. now apply rval_int_exact.
  - exists (round_mant (inject_Z a) * 2 ^ cexp (inject_Z a))%Z.
    unfold rval. rewrite inject_Z_mult, pow2_inject by lia. reflexivity.
Qed.

Lemma cexp_small_int (a : Z) :
  (0 < a < 2 ^ prec)%Z -> (cexp (inject_Z a) <= 0)%Z.
Proof.
  intros [H0 H1].
  assert (Hq : 0 < inject_Z a) by (change 0 with (inject_Z 0); now rewrite <- Zlt_Qlt).
  destruct (Qlog2_spec _ Hq) as [Hl _].
  assert (Hu : inject_Z a < Qpower 2 prec).
  { rewrite <- pow2_inject by (unfold prec; lia). now rewrite <- Zlt_Qlt. }
  assert (He : (Qlog2 (inject_Z a) < prec)%Z).
  { destruct (Z_lt_ge_dec (Qlog2 (inject_Z a)) prec) as [H | H]; [exact H|].
    pose proof (pow2_le prec (Qlog2 (inject_Z a)) ltac:(lia)). lra. }
  unfold cexp, emin, emax, prec in *. lia.
Qed.
End PythonOps.

Section Exponent.
Local Open Scope Q_scope.

Lemma inject_Z_pos (a : Z) : (0 < a)%Z -> 0 < inject_Z a.
Proof. intros H. change 0 with (inject_Z 0). now rewrite <- Zlt_Qlt. Qed.

Lemma nearest_double_nonneg (s : Z) : (0 <= s)%Z -> (0 <= nearest_double s)%Z.
Proof.
  intros H. unfold nearest_double, SF2Z.
  replace (s <? 0)%Z with false by (symmetry; apply Z.ltb_ge; lia).
  change 0%Z with (Qfloor 0). apply Qfloor_resp_le, round_Q_nonneg.
Qed.

Lemma nearest_double_mono (s1 s2 : Z) :
  (0 <= s1 <= s2)%Z -> (s2 < float_int_limit)%Z ->
  (nearest_double s1 <= nearest_double s2)%Z.
Proof.
  intros [H0 H12] H2. unfold nearest_double, SF2Z.
  replace (s1 <? 0)%Z with false by (symmetry; apply Z.ltb_ge; lia).
  replace (s2 <? 0)%Z with false by (symmetry; apply Z.ltb_ge; lia).
  rewrite !Z.abs_eq by lia. apply Qfloor_resp_le.
  apply round_Q_mono; [rewrite <- Zle_Qle; lia | now apply round_int_finite].
Qed.

Lemma nearest_double_1 : nearest_double 1 = 1%Z.
Proof. vm_compute. reflexivity. Qed.

Lemma nearest_double_pos (s : Z) :
  (1 <= s < float_int_limit)%Z -> (1 <= nearest_double s)%Z.
Proof.
  intros [H1 H2]. rewrite <- nearest_double_1 at 1.
  apply nearest_double_mono; lia.
Qed.

Lemma nearest_double_opp (s : Z) :
  (0 < s < float_int_limit)%Z -> nearest_double (- s) = (- nearest_double s)%Z.
Proof.
  intros [H0 H1]. unfold nearest_double, SF2Z.
  replace (- s <? 0)%Z with true by (symmetry; apply Z.ltb_lt; lia).
  replace (s <? 0)%Z with false by (symmetry; apply Z.ltb_ge; lia).
  rewrite Z.abs_opp.
  destruct (round_Q_sign true (inject_Z (Z.abs s))) as [_ E].
  rewrite (Qfloor_comp _ _ E). cbn [sgn]. rewrite Z.abs_eq by lia.
  pose proof (inject_Z_pos s H0) as Hq.
  destruct (round_Q_spec false (inject_Z s) Hq) as [(_ & _ & Ev) | (_ & Ev)].
  - destruct (rval_int_integral s H0) as [z Ez].
    cbn [sgn] in Ev. rewrite Ez in Ev.
    assert (E1 : - SF2Q (round_Q false (inject_Z s)) == inject_Z (- z))
      by (rewrite Ev, inject_Z_opp; reflexivity).
    rewrite (Qfloor_comp _ _ E1), (Qfloor_comp _ _ Ev), !Qfloor_Z. reflexivity.
  - pose proof (round_int_finite false s H1) as Hf. rewrite Ev in Hf. discriminate.
Qed.

Lemma nearest_double_neg (s : Z) :
  (- float_int_limit < s < 0)%Z -> (nearest_double s <= -1)%Z.
Proof.
  intros H. replace s with (- - s)%Z by ring.
  rewrite nearest_double_opp by lia.
  pose proof (nearest_double_pos (- s) ltac:(lia)). lia.
Qed.

Lemma nearest_double_exact (s : Z) :
  (- 2 ^ prec <= s <= 2 ^ prec)%Z -> nearest_double s = s.
Proof.
  assert (P : forall a, (0 <= a <= 2 ^ prec)%Z -> nearest_double a = a).
  { intros a [H0 H1].
    destruct (Z.eq_dec a 0) as [-> | N0]; [vm_compute; reflexivity|].
    destruct (Z.eq_dec a (2 ^ prec)) as [-> | N1]; [vm_compute; reflexivity|].
    assert (Ha : (0 < a)%Z) by lia.
    unfold nearest_double, SF2Z.
    replace (a <? 0)%Z with false by (symmetry; apply Z.ltb_ge; lia).
    rewrite Z.abs_eq by lia.
    destruct (round_Q_spec false (inject_Z a) (inject_Z_pos a Ha))
      as [(_ & _ & Ev) | (Hb & _)].
    - cbn [sgn] in Ev. rewrite rval_int_exact in Ev
        by (try apply cexp_small_int; lia).
      now rewrite (Qfloor_comp _ _ Ev), Qfloor_Z.
    - exfalso. rewrite rval_int_exact in Hb by (try apply cexp_small_int; lia).
      assert (Hu : inject_Z a < Qpower 2 emax).
      { rewrite <- pow2_inject by (unfold emax; lia). rewrite <- Zlt_Qlt.
        unfold emax, prec in *. lia. }
      lra. }
  intros [H0 H1]. destruct (Z_le_gt_dec 0 s) as [Hs | Hs]; [apply P; lia|].
  replace s with (- - s)%Z by ring.
  rewrite nearest_double_opp, P; unfold float_int_limit, prec in *; lia.
Qed.

(** [float(s)] is integer-valued. *)
Lemma float_of_int_integral (s : Z) (y : spec_float) :
  float_of_int s = Ok y -> SF2Q y == inject_Z (SF2Z y).
Proof.
  unfold float_of_int. intros H.
  destruct (is_finite (round_Q (s <? 0)%Z (inject_Z (Z.abs s)))) eqn:Hf;
    [|discriminate].
  injection H as <-. unfold SF2Z.
  destruct (Z.eq_dec s 0) as [-> | N0]; [vm_compute; reflexivity|].
  assert (Ha : (0 < Z.abs s)%Z) by lia.
  destruct (round_Q_spec (s <? 0)%Z (inject_Z (Z.abs s)) (inject_Z_pos _ Ha))
    as [(_ & _ & Ev) | (_ & Ev)]; [|rewrite Ev in Hf; discriminate].
  destruct (rval_int_integral _ Ha) as [z Ez].
  assert (E : SF2Q (round_Q (s <? 0)%Z (inject_Z (Z.abs s))) ==
              inject_Z (if (s <? 0)%Z then - z else z)).
  { rewrite Ev. destruct (s <? 0)%Z; cbn [sgn]; rewrite Ez;
      [rewrite inject_Z_opp|]; reflexivity. }
  rewrite (Qfloor_comp _ _ E), Qfloor_Z. exact E.
Qed.
End Exponent.

Section Call.
Local Open Scope Q_scope.

Lemma sign_of_round_Q (neg : bool) (q : Q) : sign_of (round_Q neg q) = neg.
Proof.
  unfold round_Q. destruct (Qle_bool q 0); [reflexivity|].
  destruct (round_mant q); try reflexivity.
  destruct (Z.eqb _ _); destruct (Z.leb _ _); reflexivity.
Qed.

Lemma SF2Q_pos (m : positive) (e : Z) : 0 < SF2Q (S754_finite false m e).
Proof.
  rewrite SF2Q_finite. cbn [sgn]. pose proof (pow2_pos e).
  pose proof (inject_Z_pos (Zpos m) eq_refl). nra.
Qed.

Lemma float_pow_int_pos (m : positive) (e : Z) (p : Z) :
  float_pow_int (S754_finite false m e) p =
  round_Q false (Qpower (SF2Q (S754_finite false m e)) p).
Proof.
  unfold float_pow_int. destruct (Z.eqb_spec p 0) as [-> | N0].
  - symmetry. exact round_Q_one.
  - cbn [andb]. apply round_Q_proper.
    apply Qpower_comp; [|reflexivity].
    apply Qabs_pos, Qlt_le_weak, SF2Q_pos.
Qed.

Lemma float_pow_int_nonneg (b : spec_float) (p : Z) :
  is_finite b = true -> sign_of b = false -> (0 <= p)%Z ->
  float_pow_int b p = round_Q false (Qpower (SF2Q b) p).
Proof.
  intros Hf Hs Hp. destruct b as [sb | sb | | sb m e]; try discriminate;
    cbn [sign_of] in Hs; subst sb.
  - unfold float_pow_int. destruct (Z.eqb_spec p 0) as [-> | N0].
    + symmetry. exact round_Q_one.
    + replace (p <? 0)%Z with false by (symmetry; apply Z.ltb_ge; lia).
      cbn [andb SF2Q]. symmetry. apply round_Q_zero.
      rewrite Qpower_0 by exact N0. lra.
  - apply float_pow_int_pos.
Qed.

Lemma float_sub_one (p : spec_float) :
  is_finite p = true -> float_sub one p = round_signed (1 - SF2Q p).
Proof.
  intros Hf. destruct p as [sp | sp | | sp m e]; try discriminate.
  - transitivity one; [reflexivity|].
    rewrite round_signed_nonneg by (cbn; lra).
    rewrite <- round_Q_one. apply round_Q_proper. cbn [SF2Q]. ring.
  - unfold float_sub, one. apply round_signed_proper.
    fold one. rewrite SF2Q_one. reflexivity.
Qed.

Lemma call_unfold (n0 k0 s : Z) :
  detectionProbability n0 k0 s =
  match int_true_div (n0 - k0) n0 with
  | Raise e => Raise e
  | Ok b =>
      match math_pow b s with
      | Raise e => Raise e
      | Ok p => Ok (float_sub one p)
      end
  end.
Proof.
  unfold detectionProbability, new_Detector, __init__, __call__,
    bind, set_n, set_k, get_n, get_k, lift, ret. cbn.
  destruct (int_true_div (n0 - k0) n0); [|reflexivity].
  destruct (math_pow a s); reflexivity.
Qed.

Lemma math_pow_finite (x : spec_float) (s : Z) :
  (- float_int_limit < s < float_int_limit)%Z ->
  is_finite x = true ->
  is_finite (float_pow_int x (nearest_double s)) = true ->
  math_pow x s = Ok (float_pow_int x (nearest_double s)).
Proof.
  intros Hs Hx Hr. unfold math_pow. rewrite float_of_int_ok by exact Hs.
  fold (nearest_double s). rewrite Hx.
  destruct (float_pow_int x (nearest_double s)); try discriminate; reflexivity.
Qed.

Lemma math_pow_overflow (x : spec_float) (s : Z) :
  (s <= - float_int_limit \/ float_int_limit <= s)%Z ->
  math_pow x s = Raise OverflowError.
Proof.
  intros Hs. unfold math_pow. now rewrite float_of_int_overflow.
Qed.

(** The formula on a valid model and a non-negative exponent: every
    intermediate value is a double in [[0, 1]]. *)
Lemma spec_formula_unit (n0 k0 p : Z) :
  valid_model n0 k0 -> (0 <= p)%Z ->
  float_pow_int (p_success n0 k0) p =
    round_Q false (Qpower (SF2Q (p_success n0 k0)) p) /\
  in_unit_interval (float_pow_int (p_success n0 k0) p) /\
  spec_detectionProbability n0 k0 p =
    round_Q false (1 - SF2Q (float_pow_int (p_success n0 k0) p)) /\
  in_unit_interval (spec_detectionProbability n0 k0 p).
Proof.
  intros Hv Hp. destruct (quotient_valid n0 k0 Hv) as (_ & Eb & Hbf & Hb0 & Hb1).
  assert (Hbs : sign_of (p_success n0 k0) = false)
    by (rewrite Eb; apply sign_of_round_Q).
  pose proof (float_pow_int_nonneg _ p Hbf Hbs Hp) as Epow.
  destruct (Qpower_unit _ p Hb0 Hb1 Hp) as [Hq0 Hq1].
  pose proof (round_Q_unit _ Hq0 Hq1) as Hu. rewrite <- Epow in Hu.
  destruct Hu as (Hpf & Hp0 & Hp1).
  assert (Es : spec_detectionProbability n0 k0 p =
               round_Q false (1 - SF2Q (float_pow_int (p_success n0 k0) p))).
  { unfold spec_detectionProbability. rewrite float_sub_one by exact Hpf.
    apply round_signed_nonneg. lra. }
  repeat split; try assumption.
  - rewrite Es. apply round_Q_unit; lra.
  - rewrite Es. apply round_Q_unit; lra.
  - rewrite Es. apply round_Q_unit; lra.
Qed.

(** On a valid model and a convertible non-negative [s] the call returns the
    formula at the integer [float(s)] denotes. *)
Lemma call_valid (n0 k0 s : Z) :
  valid_model n0 k0 -> (0 <= s < float_int_limit)%Z ->
  detectionProbability n0 k0 s =
  Ok (spec_detectionProbability n0 k0 (nearest_double s)).
Proof.
  intros Hv Hs. rewrite call_unfold.
  destruct (quotient_valid n0 k0 Hv) as (-> & _ & Hbf & _).
  pose proof (nearest_double_nonneg s ltac:(lia)) as Hp.
  destruct (spec_formula_unit n0 k0 _ Hv Hp) as (_ & (Hpf & _) & _).
  rewrite math_pow_finite; [reflexivity | lia | exact Hbf | exact Hpf].
Qed.

Lemma call_overflow (n0 k0 s : Z) :
  valid_model n0 k0 -> (s <= - float_int_limit \/ float_int_limit <= s)%Z ->
  detectionProbability n0 k0 s = Raise OverflowError.
Proof.
  intros Hv Hs. rewrite call_unfold.
  destruct (quotient_valid n0 k0 Hv) as (-> & _).
  now rewrite math_pow_overflow.
Qed.
End Call.

(** ** Canonical form *)

Section Canonical.

Lemma digits2_size (m : positive) : digits2_pos m = Pos.size m.
Proof. induction m as [m IH | m IH |]; cbn; congruence. Qed.

Lemma digits2_bounds (m : positive) :
  2 ^ (Zpos (digits2_pos m) - 1) <= Zpos m < 2 ^ Zpos (digits2_pos m).
Proof.
  rewrite digits2_size. pose proof (Pos.size_gt m) as Hgt.
  pose proof (Pos.size_le m) as Hle.
  apply Pos2Z.pos_lt_pos in Hgt. apply Pos2Z.pos_le_pos in Hle.
  rewrite Pos2Z.inj_pow in Hgt, Hle.
  change (Zpos m~0) with (2 * Zpos m) in Hle.
  split; [|exact Hgt].
  replace (Zpos (Pos.size m)) with (Z.succ (Zpos (Pos.size m) - 1)) in Hle
    by lia.
  rewrite Z.pow_succ_r in Hle by lia. lia.
Qed.

Lemma digits2_unique (m : positive) (d : Z) :
  2 ^ (d - 1) <= Zpos m < 2 ^ d -> Zpos (digits2_pos m) = d.
Proof.
  intros [Hl Hu]. destruct (digits2_bounds m) as [Hl' Hu'].
  assert (Hd : 0 < d).
  { destruct (Z_lt_le_dec 0 d) as [H | H]; [exact H|].
    destruct (Z.eq_dec d 0) as [-> | N]; [cbn in Hu; lia|].
    rewrite Z.pow_neg_r in Hu by lia. lia. }
  assert (H1 : Zpos (digits2_pos m) - 1 < d)
    by (apply (Z.pow_lt_mono_r_iff 2); lia).
  assert (H2 : d - 1 < Zpos (digits2_pos m))
    by (apply (Z.pow_lt_mono_r_iff 2); lia).
  lia.
Qed.

(** Whatever [round_Q] returns is a binary64 value in canonical form. *)
Lemma round_Q_valid (neg : bool) (q : Q) :
  valid_binary prec emax (round_Q neg q) = true.
Proof.
  unfold round_Q. destruct (Qle_bool q 0) eqn:E0; [reflexivity|].
  apply Qle_bool_false in E0.
  destruct (round_mant q) as [|m|m] eqn:Em; try reflexivity.
  assert (Hc : emin <= cexp q) by (unfold cexp; lia).
  destruct (Z.eqb_spec (Zpos m) (2 ^ prec)) as [Ec | Ec].
  - destruct (Z.leb_spec (cexp q + 1) (emax - prec)) as [Hl | Hl]; [|reflexivity].
    cbn [valid_binary]. unfold bounded, canonical_mantissa.
    apply andb_true_intro. split; [|now apply Z.leb_le].
    apply Z.eqb_eq. change (Zpos (digits2_pos (Z.to_pos (2 ^ (prec - 1))))) with prec.
    unfold fexp, SpecFloat.emin. unfold emin, emax, prec in *. lia.
  - destruct (Z.leb_spec (cexp q) (emax - prec)) as [Hl | Hl]; [|reflexivity].
    cbn [valid_binary]. unfold bounded, canonical_mantissa.
    apply andb_true_intro. split; [|now apply Z.leb_le].
    apply Z.eqb_eq. unfold fexp, SpecFloat.emin.
    destruct (Z_le_gt_dec emin (Qlog2 q + 1 - prec)) as [Hn | Hn].
    + pose proof (round_mant_normal q E0 Hn) as Hm. rewrite Em in Hm.
      rewrite (digits2_unique m prec) by lia.
      unfold emin, emax, prec in *. lia.
    + pose proof (round_mant_subnormal q E0 ltac:(lia)) as Hm. rewrite Em in Hm.
      assert (Ece : cexp q = emin) by (unfold cexp; lia).
      destruct (digits2_bounds m) as [Hd _].
      assert (Hd' : Zpos (digits2_pos m) - 1 < prec).
      { apply (Z.pow_lt_mono_r_iff 2); [lia | unfold prec; lia|].
        apply Z.le_lt_trans with (Zpos m); [exact Hd|].
        apply Z.le_lt_trans with (2 ^ (prec - 1)); [lia | reflexivity]. }
      rewrite Ece. unfold emin, emax, prec in *. lia.
Qed.

(** So is whatever a call returns. *)
Lemma call_result_valid (n0 k0 s : Z) (r : spec_float) :
  detectionProbability n0 k0 s = Ok r -> valid_binary prec emax r = true.
Proof.
  rewrite call_unfold.
  destruct (int_true_div (n0 - k0) n0) as [b | e]; [|discriminate].
  destruct (math_pow b s) as [p | e]; [|discriminate].
  intros H. injection H as <-.
  destruct p as [sp | sp | | sp m e]; try reflexivity.
  apply round_Q_valid.
Qed.
End Canonical.

(** ** Agreement with the Standard Library's operations

    On the operands of the notebook's run, the quotient, the conversion, the
    subtraction and a square computed here are those of [SFdiv],
    [binary_normalize], [SFsub] and [SFmul]. *)

Section Agreement.

Example quotient_agrees :
  int_true_div 3996 4096 = Ok (SFdiv prec emax (z2f 3996) (z2f 4096)) /\
  int_true_div 1 3 = Ok (SFdiv prec emax (z2f 1) (z2f 3)) /\
  int_true_div (-7) 1000003 = Ok (SFdiv prec emax (z2f (-7)) (z2f 1000003)).
Proof. repeat split; vm_compute; reflexivity. Qed.

Example conversion_agrees :
  float_of_int 10 = Ok (z2f 10) /\
  float_of_int (-100) = Ok (z2f (-100)) /\
  float_of_int (2 ^ 53 + 1) = Ok (z2f (2 ^ 53 + 1)) /\
  float_of_int 12345678901234567890123 = Ok (z2f 12345678901234567890123).
Proof. repeat split; vm_compute; reflexivity. Qed.

Example square_agrees :
  float_pow_int (p_success 4096 100) 2 =
  SFmul prec emax (p_success 4096 100) (p_success 4096 100).
Proof. vm_compute. reflexivity. Qed.

Example subtraction_agrees :
  float_sub one (float_pow_int (p_success 4096 100) 10) =
  SFsub prec emax one (float_pow_int (p_success 4096 100) 10) /\
  float_sub one (float_pow_int (p_success 2 1) (-1)) =
  SFsub prec emax one (float_pow_int (p_success 2 1) (-1)).
Proof. repeat split; vm_compute; reflexivity. Qed.

Example rounded_is_valid :
  valid_binary prec emax (p_success 4096 100) = true /\
  valid_binary prec emax (float_pow_int (p_success 4096 100) 100) = true.
Proof. repeat split; vm_compute; reflexivity. Qed.

End Agreement.

(** ** More on rounding and on the wrapper *)

Section MoreRounding.
Local Open Scope Q_scope.


Lemma round_Q_not_nan (neg : bool) (q : Q) : round_Q neg q <> S754_nan.
Proof.
  unfold round_Q. destruct (Qle_bool q 0); [discriminate|].
  destruct (round_mant q); try discriminate.
  destruct (Z.eqb _ _); destruct (Z.leb _ _); discriminate.
Qed.


Lemma round_Q_le_max (q : Q) :
  is_finite (round_Q false q) = true -> SF2Q (round_Q false q) <= max_float.
Proof.
  intros Hf. destruct (Qlt_le_dec 0 q) as [Hq | Hq].
  - destruct (round_Q_spec false q Hq) as [(Hb & _ & Ev) | (_ & Ev)].
    + now rewrite Ev.
    + rewrite Ev in Hf. discriminate.
  - rewrite (round_Q_zero false q Hq). vm_compute. discriminate.
Qed.


Lemma float_of_int_inv (s : Z) (y : spec_float) :
  float_of_int s = Ok y ->
  y = round_Q (s <? 0)%Z (inject_Z (Z.abs s)) /\
  (- float_int_limit < s < float_int_limit)%Z.
Proof.
  intros H. split.
  - unfold float_of_int in H. destruct (is_finite _); [|discriminate].
    now injection H as <-.
  - destruct (Z_le_gt_dec s (- float_int_limit)) as [H1 | H1];
      [rewrite float_of_int_overflow in H by (now left); discriminate|].
    destruct (Z_le_gt_dec float_int_limit s) as [H2 | H2];
      [rewrite float_of_int_overflow in H by (now right); discriminate|].
    lia.
Qed.

Lemma math_pow_raises (x : spec_float) (s : Z) (e : exn) :
  math_pow x s = Raise e -> e = OverflowError \/ e = ValueError.
Proof.
  unfold math_pow, float_of_int.
  destruct (is_finite (round_Q _ _)).
  - destruct (is_finite x); [|discriminate].
    destruct (float_pow_int x _); try discriminate.
    + destruct (is_zero x); intros H; injection H as <-; auto.
    + intros H; injection H as <-; auto.
  - intros H; injection H as <-; auto.
Qed.

Lemma Qpower_base_mono (a b : Q) (p : Z) :
  0 <= a -> a <= b -> (0 <= p)%Z -> Qpower a p <= Qpower b p.
Proof.
  intros Ha Hab. revert p. apply natlike_ind.
  - cbn. lra.
  - intros p Hp IH. unfold Z.succ. rewrite !Qpower_succ by exact Hp.
    pose proof (Qpower_0_le a p Ha). nra.
Qed.

End MoreRounding.

(** ** Doubles in canonical form *)

Section Doubles.
Local Open Scope Q_scope.

Lemma valid_finite_inv (s : bool) (m : positive) (e : Z) :
  valid_binary prec emax (S754_finite s m e) = true ->
  (e = Z.max (Zpos (digits2_pos m) + e - prec) emin /\ e <= emax - prec)%Z.
Proof.
  cbn [valid_binary]. unfold bounded, canonical_mantissa. intros H.
  apply andb_prop in H as [H1 H2]. apply Z.eqb_eq in H1. apply Z.leb_le in H2.
  unfold fexp, SpecFloat.emin in H1. split; [|exact H2].
  unfold emin. symmetry. exact H1.
Qed.

Lemma mant_bounds (m : positive) (e : Z) :
  Qpower 2 (Zpos (digits2_pos m) - 1 + e) <= inject_Z (Zpos m) * Qpower 2 e /\
  inject_Z (Zpos m) * Qpower 2 e < Qpower 2 (Zpos (digits2_pos m) + e).
Proof.
  destruct (digits2_bounds m) as [Hl Hu].
  rewrite Zle_Qle in Hl. rewrite Zlt_Qlt in Hu.
  rewrite pow2_inject in Hl, Hu by lia.
  rewrite !pow2_add. pose proof (pow2_pos e). split; nra.
Qed.

Lemma valid_Qlog2 (m : positive) (e : Z) :
  Qlog2 (SF2Q (S754_finite false m e)) = (Zpos (digits2_pos m) - 1 + e)%Z.
Proof.
  destruct (mant_bounds m e) as [Hl Hu].
  apply Qlog2_unique; rewrite SF2Q_finite; cbn [sgn]; [exact Hl|].
  now replace (Zpos (digits2_pos m) - 1 + e + 1)%Z
    with (Zpos (digits2_pos m) + e)%Z by ring.
Qed.

Lemma valid_cexp (m : positive) (e : Z) :
  valid_binary prec emax (S754_finite false m e) = true ->
  cexp (SF2Q (S754_finite false m e)) = e.
Proof.
  intros Hv. destruct (valid_finite_inv _ _ _ Hv) as [He _].
  unfold cexp. rewrite valid_Qlog2. lia.
Qed.

Lemma valid_inj (m1 m2 : positive) (e1 e2 : Z) :
  valid_binary prec emax (S754_finite false m1 e1) = true ->
  valid_binary prec emax (S754_finite false m2 e2) = true ->
  SF2Q (S754_finite false m1 e1) == SF2Q (S754_finite false m2 e2) ->
  S754_finite false m1 e1 = S754_finite false m2 e2.
Proof.
  intros H1 H2 E.
  pose proof (cexp_proper _ _ (SF2Q_pos m1 e1) E) as Ec.
  rewrite (valid_cexp _ _ H1), (valid_cexp _ _ H2) in Ec. subst e2.
  rewrite !SF2Q_finite in E. cbn [sgn] in E.
  apply Qmult_inj_r in E; [|pose proof (pow2_pos e1); lra].
  unfold Qeq in E. cbn in E. f_equal. lia.
Qed.

Lemma valid_mant (s : bool) (m : positive) (e : Z) :
  valid_binary prec emax (S754_finite s m e) = true ->
  (Zpos m <= 2 ^ prec - 1)%Z /\ (e <= emax - prec)%Z /\
  ((emin < e)%Z -> (2 ^ (prec - 1) <= Zpos m)%Z).
Proof.
  intros Hv. destruct (valid_finite_inv _ _ _ Hv) as [He Hm].
  destruct (digits2_bounds m) as [Hl Hu].
  assert (Hd : (Zpos (digits2_pos m) <= prec)%Z) by lia.
  split; [|split; [exact Hm|]].
  - pose proof (Z.pow_le_mono_r 2 _ _ ltac:(lia) Hd). lia.
  - intros Hlt. assert (Ed : Zpos (digits2_pos m) = prec) by lia.
    rewrite Ed in Hl. exact Hl.
Qed.


(** A double below [1.0] is at most [1 - 2^-53]. *)
Lemma valid_lt_one (m : positive) (e : Z) :
  valid_binary prec emax (S754_finite false m e) = true ->
  SF2Q (S754_finite false m e) < 1 ->
  SF2Q (S754_finite false m e) <= (2 ^ 53 - 1) # 2 ^ 53.
Proof.
  intros Hv. destruct (valid_mant _ _ _ Hv) as (Hm & He & Hn).
  rewrite SF2Q_finite. cbn [sgn]. intros Hlt.
  rewrite Zle_Qle in Hm. pose proof (pow2_pos e) as Pe.
  assert (H0 : 0 <= inject_Z (Zpos m))
    by (change 0 with (inject_Z 0); rewrite <- Zle_Qle; lia).
  destruct (Z_le_gt_dec e (-53)) as [Hs | Hs].
  - pose proof (pow2_le e (-53) Hs) as Hp.
    change (Qpower 2 (-53)) with (1 # 2 ^ 53) in Hp.
    change (inject_Z (2 ^ prec - 1)) with (inject_Z (2 ^ 53 - 1)) in Hm.
    assert (E : (2 ^ 53 - 1 # 2 ^ 53) == inject_Z (2 ^ 53 - 1) * (1 # 2 ^ 53))
      by reflexivity.
    rewrite E. revert Hm. generalize (inject_Z (2 ^ 53 - 1)). intros M HM.
    revert Hp. generalize (1 # 2 ^ 53). intros c Hc.
    assert (A1 : inject_Z (Zpos m) * Qpower 2 e <= M * Qpower 2 e) by nra.
    assert (A2 : M * Qpower 2 e <= M * c) by nra. lra.
  - exfalso. specialize (Hn ltac:(unfold emin, emax, prec; lia)).
    rewrite Zle_Qle in Hn. pose proof (pow2_le (-52) e ltac:(lia)) as Hp.
    change (Qpower 2 (-52)) with (1 # 2 ^ 52) in Hp.
    change (inject_Z (2 ^ (prec - 1))) with (inject_Z (2 ^ 52)) in Hn.
    assert (E : inject_Z (2 ^ 52) * (1 # 2 ^ 52) == 1) by reflexivity.
    assert (PA : 0 < inject_Z (2 ^ 52)) by reflexivity.
    assert (Pc : 0 < 1 # 2 ^ 52) by reflexivity.
    revert E Hn Hp PA Pc. generalize (inject_Z (2 ^ 52)) (1 # 2 ^ 52).
    intros A c E Hn Hp PA Pc.
    assert (A1 : A * c <= inject_Z (Zpos m) * c) by nra.
    assert (A2 : inject_Z (Zpos m) * c <= inject_Z (Zpos m) * Qpower 2 e) by nra.
    lra.
Qed.

(** Two finite doubles that [round_Q] built and that denote the same number
    are the same double. *)
Lemma round_Q_inj (q1 q2 : Q) :
  is_finite (round_Q false q1) = true -> is_finite (round_Q false q2) = true ->
  SF2Q (round_Q false q1) == SF2Q (round_Q false q2) ->
  round_Q false q1 = round_Q false q2.
Proof.
  intros F1 F2 E.
  pose proof (round_Q_valid false q1) as V1.
  pose proof (round_Q_valid false q2) as V2.
  pose proof (sign_of_round_Q false q1) as S1.
  pose proof (sign_of_round_Q false q2) as S2.
  destruct (round_Q false q1) as [s1 | s1 | | s1 m1 e1]; try discriminate F1;
  destruct (round_Q false q2) as [s2 | s2 | | s2 m2 e2]; try discriminate F2;
  cbn [sign_of] in S1, S2; subst s1 s2.
  - reflexivity.
  - exfalso. pose proof (SF2Q_pos m2 e2).
    change (SF2Q (S754_zero false)) with 0 in E. lra.
  - exfalso. pose proof (SF2Q_pos m1 e1).
    change (SF2Q (S754_zero false)) with 0 in E. lra.
  - now apply valid_inj.
Qed.
End Doubles.

(** ** The class over an accurate library *)

Section Library.
Local Open Scope Q_scope.

Lemma below_finite (a b : spec_float) :
  Libm.below a b -> is_finite b = true -> float_le a b.
Proof.
  unfold Libm.below. destruct b as [sb | [|] | | sb m e]; try discriminate;
    intros H _; exact H.
Qed.

Lemma below_round (a b : Q) :
  a <= b -> Libm.below (round_Q false a) (round_Q false b).
Proof.
  intros Hab. pose proof (sign_of_round_Q false b) as Hs.
  pose proof (round_Q_not_nan false b) as Hn.
  unfold Libm.below.
  destruct (round_Q false b) as [sb | sb | | sb m e] eqn:Eb.
  - destruct (round_Q_mono a b Hab) as [Hf Hl]; [now rewrite Eb|].
    rewrite Eb in Hl. now split.
  - cbn [sign_of] in Hs. subst sb. apply round_Q_not_nan.
  - now contradiction Hn.
  - destruct (round_Q_mono a b Hab) as [Hf Hl]; [now rewrite Eb|].
    rewrite Eb in Hl. now split.
Qed.

Lemma below_zero_round (q : Q) :
  Libm.below (S754_zero false) (round_Q false q).
Proof.
  pose proof (sign_of_round_Q false q) as Hs.
  pose proof (round_Q_not_nan false q) as Hn.
  pose proof (round_Q_nonneg q) as H0.
  unfold Libm.below.
  destruct (round_Q false q) as [sb | sb | | sb m e] eqn:Eb.
  - repeat split. cbn. lra.
  - cbn [sign_of] in Hs. subst sb. discriminate.
  - now contradiction Hn.
  - repeat split. exact H0.
Qed.


Lemma round_half_above_one : round_Q false (1 + (1 # 2 ^ 53)) = one.
Proof. vm_compute. reflexivity. Qed.

Variable eta : Q.
Hypothesis eta_nonneg : 0 <= eta.

Lemma slack_nonneg (t : Q) : 0 <= Libm.slack eta t.
Proof.
  unfold Libm.slack. pose proof (pow2_pos (cexp t)).
  apply Qmult_le_0_compat; lra.
Qed.

Lemma slack_mono (t u : Q) :
  0 < t -> t <= u -> Libm.slack eta t <= Libm.slack eta u.
Proof.
  intros Ht Htu. unfold Libm.slack.
  pose proof (pow2_le _ _ (cexp_mono t u Ht Htu)).
  pose proof (pow2_pos (cexp t)). nra.
Qed.

Lemma slack_proper (t u : Q) :
  0 < t -> t == u -> Libm.slack eta t == Libm.slack eta u.
Proof. intros Ht E. unfold Libm.slack. now rewrite (cexp_proper t u Ht E). Qed.

(** In the normal range an ulp is at most [2^-52] of the value. *)
Lemma slack_normal (t : Q) :
  Qpower 2 (emin + prec - 1) <= t ->
  Libm.slack eta t <= t * (eta * (1 # 2 ^ 52)).
Proof.
  intros Hn. pose proof (pow2_pos (emin + prec - 1)) as P0.
  assert (Ht : 0 < t) by lra.
  destruct (Qlog2_spec t Ht) as [H1 H2].
  assert (HL : (emin + prec - 1 <= Qlog2 t)%Z).
  { destruct (Z_le_gt_dec (emin + prec - 1) (Qlog2 t)) as [H | H]; [exact H|].
    pose proof (pow2_le (Qlog2 t + 1) (emin + prec - 1) ltac:(lia)). lra. }
  assert (Ec : cexp t = (Qlog2 t + -52)%Z) by (unfold cexp, prec in *; lia).
  unfold Libm.slack. rewrite Ec, pow2_add.
  change (Qpower 2 (-52)) with (1 # 2 ^ 52).
  assert (Hc : 0 < 1 # 2 ^ 52) by reflexivity.
  revert Hc. generalize (1 # 2 ^ 52). intros c Hc.
  revert H1. generalize (Qpower 2 (Qlog2 t)). intros X HX.
  assert (B : X * c <= t * c) by nra.
  assert (A : eta * (X * c) <= eta * (t * c)).
  { revert B. generalize (X * c) (t * c). intros a b B. nra. }
  lra.
Qed.

Lemma slack_one : Libm.slack eta 1 == eta * (1 # 2 ^ 52).
Proof. unfold Libm.slack. reflexivity. Qed.

Lemma near_upper (x : spec_float) (N : Z) (p : spec_float) (hi : Q) :
  Libm.near_power eta x N p ->
  Qpower (SF2Q x) N + Libm.slack eta (Qpower (SF2Q x) N) <= hi ->
  is_finite (round_Q false hi) = true ->
  is_finite p = true /\ SF2Q p <= SF2Q (round_Q false hi).
Proof.
  intros [_ Hb] Hle Hf.
  destruct (round_Q_mono _ _ Hle Hf) as [Hf' Hl].
  destruct (below_finite _ _ Hb Hf') as (Hp & _ & Hv).
  split; [exact Hp | lra].
Qed.

Lemma near_lower (x : spec_float) (N : Z) (p : spec_float) (lo : Q) :
  Libm.near_power eta x N p -> is_finite p = true ->
  lo <= Qpower (SF2Q x) N - Libm.slack eta (Qpower (SF2Q x) N) ->
  SF2Q (round_Q false lo) <= SF2Q p.
Proof.
  intros [Hb _] Hp Hle.
  destruct (below_finite _ _ Hb Hp) as (Hf & _ & Hv).
  destruct (round_Q_mono _ _ Hle Hf) as [_ Hl]. lra.
Qed.

(** The exact cases are near the exact power as well. *)
Lemma near_exponent_zero (x : spec_float) : Libm.near_power eta x 0 one.
Proof.
  unfold Libm.near_power. cbn [Qpower].
  pose proof (slack_nonneg 1) as Hs. rewrite <- round_Q_one.
  split; apply below_round; lra.
Qed.

Lemma near_base_zero (N : Z) :
  (N <> 0)%Z -> Libm.near_power eta (S754_zero false) N (S754_zero false).
Proof.
  intros HN. unfold Libm.near_power. cbn [SF2Q].
  pose proof (Qpower_0 N HN) as E. pose proof (slack_nonneg (Qpower 0 N)) as Hs.
  rewrite round_Q_zero by lra. split.
  - split; [reflexivity | split; [reflexivity | apply Qle_refl]].
  - apply below_zero_round.
Qed.

Lemma near_base_one (N : Z) : Libm.near_power eta one N one.
Proof.
  unfold Libm.near_power.
  assert (E : Qpower (SF2Q one) N == 1).
  { rewrite (Qpower_comp _ _ SF2Q_one _ _ eq_refl). apply Qpower_1. }
  pose proof (slack_nonneg (Qpower (SF2Q one) N)) as Hs.
  set (t := Qpower (SF2Q one) N) in *.
  pose proof (below_round (t - Libm.slack eta t) 1 ltac:(lra)) as Hl.
  pose proof (below_round 1 (t + Libm.slack eta t) ltac:(lra)) as Hu.
  rewrite round_Q_one in Hl, Hu. now split.
Qed.

Hypothesis eta_half : eta <= 1 # 2.

(** A power in [(0, 1]]: the library's result is a double in [[0, 1]]. *)
Lemma near_unit (x : spec_float) (N : Z) (p : spec_float) :
  Libm.near_power eta x N p ->
  0 < Qpower (SF2Q x) N -> Qpower (SF2Q x) N <= 1 ->
  is_finite p = true /\ 0 <= SF2Q p /\ SF2Q p <= 1.
Proof.
  intros Hn H0 H1.
  pose proof (slack_mono _ _ H0 H1) as Hs. rewrite slack_one in Hs.
  assert (Hh : eta * (1 # 2 ^ 52) <= 1 # 2 ^ 53).
  { assert (E : (1 # 2 ^ 53) == (1 # 2) * (1 # 2 ^ 52)) by reflexivity.
    rewrite E. assert (Hc : 0 < 1 # 2 ^ 52) by reflexivity.
    revert Hc. generalize (1 # 2 ^ 52). intros c Hc. nra. }
  destruct (near_upper x N p (1 + (1 # 2 ^ 53)) Hn ltac:(lra)) as [Hf Hu];
    [now rewrite round_half_above_one|].
  rewrite round_half_above_one, SF2Q_one in Hu.
  split; [exact Hf | split; [|exact Hu]].
  destruct Hn as [Hb _]. destruct (below_finite _ _ Hb Hf) as (_ & _ & Hv).
  pose proof (round_Q_nonneg
    (Qpower (SF2Q x) N - Libm.slack eta (Qpower (SF2Q x) N))). lra.
Qed.

Variable pow : spec_float -> spec_float -> spec_float.

Lemma call_unfold_linked (n0 k0 s : Z) :
  Libm.detectionProbability pow n0 k0 s =
  match int_true_div (n0 - k0) n0 with
  | Raise e => Raise e
  | Ok b =>
      match Libm.math_pow pow b s with
      | Raise e => Raise e
      | Ok p => Ok (float_sub one p)
      end
  end.
Proof.
  unfold Libm.detectionProbability, new_Detector, __init__, Libm.__call__,
    bind, set_n, set_k, get_n, get_k, lift, ret. cbn.
  destruct (int_true_div (n0 - k0) n0); [|reflexivity].
  destruct (Libm.math_pow pow a s); reflexivity.
Qed.

Lemma call_frame_linked (self : Detector) (s : Z) :
  Libm.__call__ pow s self =
  (self, Libm.detectionProbability pow (n self) (k self) s).
Proof.
  unfold Libm.detectionProbability, new_Detector, __init__, Libm.__call__,
    bind, set_n, set_k, get_n, get_k, lift, ret. cbn.
  destruct (int_true_div (n self - k self) (n self)); [|reflexivity].
  destruct (Libm.math_pow pow a s); reflexivity.
Qed.

Lemma math_pow_linked_finite (x : spec_float) (s : Z) :
  (- float_int_limit < s < float_int_limit)%Z ->
  is_finite x = true -> is_finite (pow x (Libm.as_double s)) = true ->
  Libm.math_pow pow x s = Ok (pow x (Libm.as_double s)).
Proof.
  intros Hs Hx Hr. unfold Libm.math_pow. rewrite float_of_int_ok by exact Hs.
  fold (Libm.as_double s). rewrite Hx.
  destruct (pow x (Libm.as_double s)); try discriminate; reflexivity.
Qed.


Lemma call_linked_overflow (n0 k0 s : Z) :
  valid_model n0 k0 -> (s <= - float_int_limit \/ float_int_limit <= s)%Z ->
  Libm.detectionProbability pow n0 k0 s = Raise OverflowError.
Proof.
  intros Hv Hs. rewrite call_unfold_linked.
  destruct (quotient_valid n0 k0 Hv) as (-> & _).
  unfold Libm.math_pow. now rewrite float_of_int_overflow.
Qed.

(** The quotient of a valid model is [+0.0] or a positive double in canonical
    form. *)
Lemma quotient_shape (n0 k0 : Z) :
  valid_model n0 k0 ->
  p_success n0 k0 = S754_zero false \/
  exists m e, p_success n0 k0 = S754_finite false m e /\
    valid_binary prec emax (S754_finite false m e) = true /\
    0 < SF2Q (S754_finite false m e) /\ SF2Q (S754_finite false m e) <= 1.
Proof.
  intros Hv. destruct (quotient_valid n0 k0 Hv) as (_ & Eb & Hbf & Hb0 & Hb1).
  pose proof (round_Q_valid false ((n0 - k0) # Z.to_pos n0)) as Hval.
  pose proof (sign_of_round_Q false ((n0 - k0) # Z.to_pos n0)) as Hs.
  rewrite <- Eb in Hval, Hs.
  destruct (p_success n0 k0) as [sb | sb | | sb m e]; try discriminate Hbf;
    cbn [sign_of] in Hs; subst sb.
  - now left.
  - right. exists m, e. repeat split; try assumption. apply SF2Q_pos.
Qed.

Hypothesis pow_accurate : Libm.accurate eta pow.

(** What the library hands back on a valid model and a count that converts:
    a double in [[0, 1]] near the exact power. *)
Lemma power_accurate (n0 k0 s : Z) :
  valid_model n0 k0 -> (0 <= s < float_int_limit)%Z ->
  let p := pow (p_success n0 k0) (Libm.as_double s) in
  Libm.near_power eta (p_success n0 k0) (nearest_double s) p /\
  valid_binary prec emax p = true /\
  is_finite p = true /\ 0 <= SF2Q p /\ SF2Q p <= 1.
Proof.
  intros Hv Hs p. subst p.
  assert (Hlim : (- float_int_limit < s < float_int_limit)%Z).
  { assert (0 < float_int_limit)%Z by reflexivity. lia. }
  pose proof (float_of_int_ok s Hlim) as Ey. fold (Libm.as_double s) in Ey.
  destruct (Z.eq_dec s 0) as [-> | Hs0].
  - change (Libm.as_double 0) with (S754_zero false).
    rewrite (Libm.pow_exponent_zero eta pow pow_accurate).
    change (nearest_double 0) with 0%Z.
    split; [apply near_exponent_zero|].
    split; [reflexivity | split; [reflexivity|]].
    rewrite SF2Q_one. split; lra.
  - pose proof (nearest_double_pos s ltac:(lia)) as HN.
    destruct (quotient_shape n0 k0 Hv) as [-> | (m & e & -> & Hval & Hb0 & Hb1)].
    + rewrite (Libm.pow_base_zero eta pow pow_accurate false s _ Ey Hs0).
      replace (s <? 0)%Z with false by (symmetry; apply Z.ltb_ge; lia).
      cbn [andb]. split; [apply near_base_zero; lia|].
      split; [reflexivity | split; [reflexivity|]]. cbn. split; lra.
    + destruct (Libm.pow_base_positive eta pow pow_accurate m e s _ Hval Ey Hs0)
        as [Hpv Hnear].
      change (SF2Z (Libm.as_double s)) with (nearest_double s) in Hnear.
      split; [exact Hnear | split; [exact Hpv|]].
      apply (near_unit _ _ _ Hnear).
      * apply Qpower_0_lt. exact Hb0.
      * apply Qpower_unit; [lra | exact Hb1 | lia].
Qed.

Lemma call_accurate (n0 k0 s : Z) :
  valid_model n0 k0 -> (0 <= s < float_int_limit)%Z ->
  Libm.detectionProbability pow n0 k0 s =
    Ok (Libm.spec_detectionProbability pow n0 k0 s) /\
  Libm.spec_detectionProbability pow n0 k0 s =
    round_Q false (1 - SF2Q (pow (p_success n0 k0) (Libm.as_double s))) /\
  in_unit_interval (Libm.spec_detectionProbability pow n0 k0 s).
Proof.
  intros Hv Hs.
  destruct (power_accurate n0 k0 s Hv Hs) as (_ & _ & Hpf & Hp0 & Hp1).
  destruct (quotient_valid n0 k0 Hv) as (Ediv & _ & Hbf & _).
  assert (Hlim : (- float_int_limit < s < float_int_limit)%Z).
  { assert (0 < float_int_limit)%Z by reflexivity. lia. }
  assert (Es : Libm.spec_detectionProbability pow n0 k0 s =
    round_Q false (1 - SF2Q (pow (p_success n0 k0) (Libm.as_double s)))).
  { unfold Libm.spec_detectionProbability. rewrite float_sub_one by exact Hpf.
    apply round_signed_nonneg. lra. }
  split; [|split; [exact Es|]].
  - rewrite call_unfold_linked, Ediv, math_pow_linked_finite by assumption.
    reflexivity.
  - rewrite Es. apply round_Q_unit; lra.
Qed.

End Library.

(** ** The correctly rounded library, and the order of the powers *)

Section Reference.
Local Open Scope Q_scope.

(** The correctly rounded library is within every bound. *)
Lemma nearest_accurate (eta : Q) : 0 <= eta -> Libm.accurate eta Libm.nearest.
Proof.
  intros Heta. constructor.
  - intros x. reflexivity.
  - intros y. unfold Libm.nearest. unfold one at 1.
    rewrite float_pow_int_pos. fold one.
    rewrite <- round_Q_one at 2. apply round_Q_proper.
    rewrite (Qpower_comp _ _ SF2Q_one _ _ eq_refl). apply Qpower_1.
  - intros sx s y Ey Hs0. destruct (float_of_int_inv s y Ey) as [-> Hlim].
    unfold Libm.nearest, float_pow_int. fold (nearest_double s).
    destruct (Z.ltb_spec s 0) as [Hneg | Hpos].
    + pose proof (nearest_double_neg s ltac:(lia)) as HN.
      replace (nearest_double s =? 0)%Z with false
        by (symmetry; apply Z.eqb_neq; lia).
      replace (nearest_double s <? 0)%Z with true
        by (symmetry; apply Z.ltb_lt; lia).
      reflexivity.
    + pose proof (nearest_double_pos s ltac:(lia)) as HN.
      replace (nearest_double s =? 0)%Z with false
        by (symmetry; apply Z.eqb_neq; lia).
      replace (nearest_double s <? 0)%Z with false
        by (symmetry; apply Z.ltb_ge; lia).
      reflexivity.
  - intros m e s y Hval Ey Hs0. unfold Libm.nearest.
    rewrite float_pow_int_pos. split; [apply round_Q_valid|].
    unfold Libm.near_power.
    pose proof (slack_nonneg eta Heta
                  (Qpower (SF2Q (S754_finite false m e)) (SF2Z y))).
    split; apply below_round; lra.
Qed.

Lemma sixteenth_nonneg : 0 <= 1 # 16.
Proof. vm_compute. discriminate. Qed.

Lemma sixteenth_half : (1 # 16) <= 1 # 2.
Proof. vm_compute. discriminate. Qed.

Lemma quarter_nonneg : 0 <= 1 # 4.
Proof. vm_compute. discriminate. Qed.

Lemma quarter_half : (1 # 4) <= 1 # 2.
Proof. vm_compute. discriminate. Qed.

Lemma half_nonneg : 0 <= 1 # 2.
Proof. vm_compute. discriminate. Qed.

Lemma linked_nearest (n0 k0 s : Z) :
  Libm.detectionProbability Libm.nearest n0 k0 s = detectionProbability n0 k0 s.
Proof.
  rewrite call_unfold_linked, call_unfold.
  destruct (int_true_div (n0 - k0) n0) as [b | e]; [|reflexivity].
  assert (E : Libm.math_pow Libm.nearest b s = math_pow b s).
  { unfold Libm.math_pow, math_pow, Libm.nearest.
    destruct (float_of_int s); [|reflexivity].
    destruct (is_finite b); reflexivity. }
  now rewrite E.
Qed.
End Reference.

Section Saturates.
Local Open Scope Q_scope.
Variable eta : Q.
Hypothesis eta_nonneg : 0 <= eta.
Hypothesis eta_half : eta <= 1 # 2.

Lemma round_small :
  round_Q false ((1 # 2 ^ 54) + (1 # 2 ^ 107)) =
  S754_finite false 4503599627370496 (-106).
Proof. vm_compute. reflexivity. Qed.

Lemma round_tie_one : round_Q false (1 - (1 # 2 ^ 54)) = one.
Proof. vm_compute. reflexivity. Qed.

(** A miss probability of at most [2^-54] is lost in the subtraction. *)
Lemma sub_saturates (p : spec_float) :
  is_finite p = true -> 0 <= SF2Q p -> SF2Q p <= 1 # 2 ^ 54 ->
  is_finite (round_Q false (1 - SF2Q p)) = true /\
  SF2Q (round_Q false (1 - SF2Q p)) == 1.
Proof.
  intros Hf H0 H1.
  destruct (round_Q_unit (1 - SF2Q p)) as (Hrf & _ & Hr1);
    [assert ((1 # 2 ^ 54) <= 1) by (vm_compute; discriminate); lra | lra|].
  split; [exact Hrf|]. apply Qle_antisym; [exact Hr1|].
  destruct (round_Q_mono (1 - (1 # 2 ^ 54)) (1 - SF2Q p) ltac:(lra) Hrf)
    as [_ H].
  now rewrite round_tie_one, SF2Q_one in H.
Qed.

Lemma near_saturated (x : spec_float) (N : Z) (p : spec_float) :
  Libm.near_power eta x N p ->
  0 < Qpower (SF2Q x) N -> Qpower (SF2Q x) N <= 1 # 2 ^ 54 ->
  is_finite p = true /\ SF2Q p <= 1 # 2 ^ 54.
Proof.
  intros Hn H0 H1.
  pose proof (slack_mono eta eta_nonneg _ _ H0 H1) as Hs.
  assert (Es : Libm.slack eta (1 # 2 ^ 54) == eta * (1 # 2 ^ 106))
    by (unfold Libm.slack; reflexivity).
  rewrite Es in Hs.
  assert (Hh : eta * (1 # 2 ^ 106) <= 1 # 2 ^ 107).
  { assert (E : (1 # 2 ^ 107) == (1 # 2) * (1 # 2 ^ 106)) by reflexivity.
    rewrite E. assert (Hc : 0 < 1 # 2 ^ 106) by reflexivity.
    revert Hc. generalize (1 # 2 ^ 106). intros c Hc. nra. }
  destruct (near_upper eta x N p ((1 # 2 ^ 54) + (1 # 2 ^ 107)) Hn ltac:(lra))
    as [Hf Hu]; [now rewrite round_small|].
  split; [exact Hf|]. rewrite round_small in Hu.
  assert (E : SF2Q (S754_finite false 4503599627370496 (-106)) == 1 # 2 ^ 54)
    by (vm_compute; reflexivity).
  now rewrite E in Hu.
Qed.
End Saturates.

Section Monotone.
Local Open Scope Q_scope.
Variable eta : Q.
Hypothesis eta_nonneg : 0 <= eta.
Hypothesis eta_quarter : eta <= 1 # 4.
Variable pow : spec_float -> spec_float -> spec_float.
Hypothesis pow_accurate : Libm.accurate eta pow.

Lemma eta_half_of_quarter : eta <= 1 # 2.
Proof. assert ((1 # 4) <= 1 # 2) by (vm_compute; discriminate). lra. Qed.

Lemma as_double_same (s1 s2 : Z) :
  (0 <= s1 < float_int_limit)%Z -> (0 <= s2 < float_int_limit)%Z ->
  nearest_double s1 = nearest_double s2 ->
  Libm.as_double s1 = Libm.as_double s2.
Proof.
  intros H1 H2 E.
  assert (L1 : (- float_int_limit < s1 < float_int_limit)%Z) by lia.
  assert (L2 : (- float_int_limit < s2 < float_int_limit)%Z) by lia.
  pose proof (float_of_int_integral s1 _ (float_of_int_ok s1 L1)) as V1.
  pose proof (float_of_int_integral s2 _ (float_of_int_ok s2 L2)) as V2.
  fold (nearest_double s1) in V1. fold (nearest_double s2) in V2.
  unfold Libm.as_double.
  replace (s1 <? 0)%Z with false in * by (symmetry; apply Z.ltb_ge; lia).
  replace (s2 <? 0)%Z with false in * by (symmetry; apply Z.ltb_ge; lia).
  apply round_Q_inj.
  - apply round_int_finite. lia.
  - apply round_int_finite. lia.
  - now rewrite V1, V2, E.
Qed.

Lemma Qpower_step (v : Q) (a b : Z) :
  0 < v -> v <= 1 -> (0 <= a < b)%Z -> Qpower v b <= Qpower v a * v.
Proof.
  intros H0 H1 [Ha Hab].
  replace b with (a + (b - a))%Z by ring. rewrite Qpower_plus by lra.
  pose proof (Qpower_unit_anti v 1 (b - a) ltac:(lra) H1 ltac:(lia)) as H.
  rewrite Qpower_1_r in H. pose proof (Qpower_0_lt v a H0). nra.
Qed.

(** More draws never raise the miss probability the library returns, unless
    both are lost in the subtraction. *)
Lemma formula_mono (n0 k0 s1 s2 : Z) :
  valid_model n0 k0 -> (0 <= s1 <= s2)%Z -> (s2 < float_int_limit)%Z ->
  SF2Q (Libm.spec_detectionProbability pow n0 k0 s1) <=
  SF2Q (Libm.spec_detectionProbability pow n0 k0 s2).
Proof.
  intros Hv [H1 H12] H2.
  pose proof eta_half_of_quarter as eta_half.
  assert (R1 : (0 <= s1 < float_int_limit)%Z) by lia.
  assert (R2 : (0 <= s2 < float_int_limit)%Z) by lia.
  destruct (call_accurate eta eta_nonneg eta_half pow pow_accurate
              n0 k0 s1 Hv R1) as (_ & Es1 & U1).
  destruct (call_accurate eta eta_nonneg eta_half pow pow_accurate
              n0 k0 s2 Hv R2) as (_ & Es2 & U2).
  destruct (power_accurate eta eta_nonneg eta_half pow pow_accurate
              n0 k0 s1 Hv R1) as (N1 & _ & F1 & L1 & _).
  destruct (power_accurate eta eta_nonneg eta_half pow pow_accurate
              n0 k0 s2 Hv R2) as (N2 & _ & F2 & L2 & M2).
  cbv zeta in N1, N2, F1, F2, L1, L2, M2.
  pose proof (nearest_double_nonneg s1 H1) as HN1.
  pose proof (nearest_double_mono s1 s2 (conj H1 H12) H2) as HN12.
  destruct (Z.eq_dec (nearest_double s1) (nearest_double s2)) as [E | NE].
  { unfold Libm.spec_detectionProbability.
    rewrite (as_double_same s1 s2 R1 R2 E). apply Qle_refl. }
  assert (HN : (nearest_double s1 < nearest_double s2)%Z) by lia.
  assert (Hs2 : s2 <> 0%Z).
  { intros ->. change (nearest_double 0) with 0%Z in HN. lia. }
  assert (Hlim : (- float_int_limit < s2 < float_int_limit)%Z) by lia.
  pose proof (float_of_int_ok s2 Hlim) as Ey2. fold (Libm.as_double s2) in Ey2.
  (* it is enough to order the two powers, or to find the second result
     at 1 *)
  assert (Hstep : SF2Q (pow (p_success n0 k0) (Libm.as_double s2)) <=
                  SF2Q (pow (p_success n0 k0) (Libm.as_double s1)) \/
                  SF2Q (Libm.spec_detectionProbability pow n0 k0 s2) == 1).
  { destruct (quotient_shape n0 k0 Hv) as [Eb | (m & e & Eb & Hval & Hb0 & Hb1)];
      rewrite Eb in *.
    - left. rewrite (Libm.pow_base_zero eta pow pow_accurate false s2 _ Ey2 Hs2).
      replace (s2 <? 0)%Z with false by (symmetry; apply Z.ltb_ge; lia).
      exact L1.
    - set (x := S754_finite false m e) in *. set (v := SF2Q x) in *.
      set (t1 := Qpower v (nearest_double s1)) in *.
      set (t2 := Qpower v (nearest_double s2)) in *.
      assert (T1 : 0 < t1) by (apply Qpower_0_lt; exact Hb0).
      assert (T2 : 0 < t2) by (apply Qpower_0_lt; exact Hb0).
      assert (T11 : t1 <= 1) by (apply Qpower_unit; [lra | exact Hb1 | lia]).
      assert (T21 : t2 <= t1)
        by (apply Qpower_unit_anti; [lra | exact Hb1 | lia]).
      assert (Hq : eta * (1 # 2 ^ 52) <= 1 # 2 ^ 54).
      { assert (E : (1 # 2 ^ 54) == (1 # 4) * (1 # 2 ^ 52)) by reflexivity.
        rewrite E. assert (Hc : 0 < 1 # 2 ^ 52) by reflexivity.
        revert Hc. generalize (1 # 2 ^ 52). intros c Hc. nra. }
      destruct (Qlt_le_dec t1 1) as [Hlt | Hge].
      + (* the first power is below one: the base is, and the exponent is
           positive *)
        assert (Hv1 : v < 1).
        { destruct (Qlt_le_dec v 1) as [H | H]; [exact H|].
          assert (Ev : v == 1) by lra. exfalso.
          assert (E1 : t1 == 1).
          { unfold t1. rewrite (Qpower_comp _ _ Ev _ _ eq_refl).
            apply Qpower_1. }
          lra. }
        pose proof (valid_lt_one m e Hval Hv1) as Hc. fold x v in Hc.
        pose proof (Qpower_step v _ _ Hb0 Hb1 (conj HN1 HN)) as Hst.
        fold t1 t2 in Hst.
        destruct (Qlt_le_dec (1 # 2 ^ 54) t1) as [Hbig | Hsmall].
        * left.
          assert (Hn : Qpower 2 (emin + prec - 1) <= t1).
          { assert (Qpower 2 (emin + prec - 1) <= 1 # 2 ^ 54)
              by (vm_compute; discriminate). lra. }
          pose proof (slack_normal eta eta_nonneg t1 Hn) as S1.
          pose proof (slack_mono eta eta_nonneg t2 t1 T2 T21) as S2.
          pose proof (slack_nonneg eta eta_nonneg t1) as P1.
          pose proof (slack_nonneg eta eta_nonneg t2) as P2.
          assert (Hmid : t2 + Libm.slack eta t2 <= t1 - Libm.slack eta t1).
          { assert (Ec : (2 ^ 53 - 1 # 2 ^ 53) == 1 - (1 # 2 ^ 53)) by reflexivity.
            rewrite Ec in Hc.
            assert (E53 : (1 # 2 ^ 53) == 2 * (1 # 2 ^ 54)) by reflexivity.
            rewrite E53 in Hc.
            assert (P54 : 0 < 1 # 2 ^ 54) by reflexivity.
            revert S1 Hc P54 Hq.
            generalize (1 # 2 ^ 54) (eta * (1 # 2 ^ 52)).
            intros u w S1 Hc P54 Hq.
            assert (A : t1 * v <= t1 * (1 - 2 * u)) by nra.
            assert (B : t1 * w <= t1 * u) by nra.
            lra. }
          assert (Fmid : is_finite (round_Q false (t1 - Libm.slack eta t1)) = true).
          { apply (round_Q_mono _ 1); [lra | now rewrite round_Q_one]. }
          destruct (near_upper eta x _ _ _ N2 Hmid Fmid) as [_ Hu].
          pose proof (near_lower eta x _ _ _ N1 F1 (Qle_refl _)) as Hl.
          fold v t1 in Hl. lra.
        * right. rewrite Es2.
          destruct (near_saturated eta eta_nonneg eta_half x _ _ N2 T2
                      ltac:(fold v t2; lra)) as [_ Hp].
          apply sub_saturates; assumption.
      + (* the first power is one *)
        left. assert (E1 : t1 == 1) by lra.
        pose proof (slack_proper eta t1 1 T1 E1) as S1.
        rewrite slack_one in S1.
        assert (Hlo : 1 - (1 # 2 ^ 54) <= t1 - Libm.slack eta t1) by lra.
        pose proof (near_lower eta x _ _ _ N1 F1 Hlo) as Hl.
        rewrite round_tie_one, SF2Q_one in Hl. lra. }
  destruct U1 as (Hf1 & U10 & U11). destruct U2 as (Hf2 & U20 & U21).
  destruct Hstep as [Hle | Hone]; [|lra].
  rewrite Es1, Es2. apply round_Q_mono; [lra | now rewrite <- Es2].
Qed.
End Monotone.

(** ** Negative counts, and values the bound determines *)

Section Negative.
Local Open Scope Q_scope.
Variable eta : Q.
Hypothesis eta_nonneg : 0 <= eta.
Hypothesis eta_half : eta <= 1 # 2.
Variable pow : spec_float -> spec_float -> spec_float.
Hypothesis pow_accurate : Libm.accurate eta pow.






End Negative.

Section Pinned.
Local Open Scope Q_scope.
Variable eta : Q.
Hypothesis eta_nonneg : 0 <= eta.
Hypothesis eta_half : eta <= 1 # 2.
Variable pow : spec_float -> spec_float -> spec_float.
Hypothesis pow_accurate : Libm.accurate eta pow.

(** When the two ends of the bracket around the exact power give the same
    difference from [1.0], that difference is what the call returns, whatever
    the library chose inside the bracket. *)
Lemma call_pinned (n0 k0 s : Z) (R : spec_float) :
  valid_model n0 k0 -> (0 <= s < float_int_limit)%Z ->
  (let t := Qpower (SF2Q (p_success n0 k0)) (nearest_double s) in
   is_finite (round_Q false (t + Libm.slack eta t)) = true /\
   round_Q false (1 - SF2Q (round_Q false (t + Libm.slack eta t))) = R /\
   round_Q false (1 - SF2Q (round_Q false (t - Libm.slack eta t))) = R /\
   is_finite R = true) ->
  Libm.detectionProbability pow n0 k0 s = Ok R.
Proof.
  intros Hv Hs (Fhi & Ehi & Elo & FR).
  destruct (call_accurate eta eta_nonneg eta_half pow pow_accurate n0 k0 s Hv Hs) as (-> & Es & Hrf & _).
  destruct (power_accurate eta eta_nonneg eta_half pow pow_accurate n0 k0 s Hv Hs)
    as (Hnear & _ & Hpf & _).
  cbv zeta in Hnear, Hpf. f_equal. rewrite Es in Hrf |- *.
  destruct (near_upper eta _ _ _ _ Hnear (Qle_refl _) Fhi) as [_ Hu].
  pose proof (near_lower eta _ _ _ _ Hnear Hpf (Qle_refl _)) as Hl.
  set (p := SF2Q (pow (p_success n0 k0) (Libm.as_double s))) in *.
  rewrite <- Elo. rewrite <- Elo in FR.
  apply round_Q_inj; [exact Hrf | exact FR|].
  apply Qle_antisym.
  - apply round_Q_mono; [lra | exact FR].
  - rewrite Elo, <- Ehi.
    apply round_Q_mono; [lra | exact Hrf].
Qed.
End Pinned.

Section SaturatedCalls.
Local Open Scope Q_scope.
Variable eta : Q.
Hypothesis eta_nonneg : 0 <= eta.
Hypothesis eta_half : eta <= 1 # 2.
Variable pow : spec_float -> spec_float -> spec_float.
Hypothesis pow_accurate : Libm.accurate eta pow.

(** Once the exact miss probability is at most [2^-54] the subtraction rounds
    to [1.0]. *)
Lemma saturation (n0 k0 a s : Z) :
  valid_model n0 k0 -> (1 <= a)%Z -> (54 * a <= 2 ^ 53)%Z ->
  Qpower (SF2Q (p_success n0 k0)) a <= 1 # 2 ->
  (54 * a <= s < float_int_limit)%Z ->
  exists r : spec_float,
    Libm.detectionProbability pow n0 k0 s = Ok r /\
    is_finite r = true /\ SF2Q r == 1.
Proof.
  intros Hv Ha Ha53 Hhalf [Hs0 Hs1].
  assert (Hs : (0 <= s < float_int_limit)%Z) by lia.
  destruct (call_accurate eta eta_nonneg eta_half pow pow_accurate n0 k0 s Hv Hs) as (Ec & Es & _).
  destruct (power_accurate eta eta_nonneg eta_half pow pow_accurate n0 k0 s Hv Hs)
    as (Hnear & _ & Hpf & Hp0 & _).
  cbv zeta in Hnear, Hpf, Hp0.
  exists (Libm.spec_detectionProbability pow n0 k0 s).
  split; [exact Ec|]. rewrite Es. apply sub_saturates; try assumption.
  assert (HN : (54 * a <= nearest_double s)%Z).
  { destruct (Z_le_gt_dec s (2 ^ 53)) as [H | H].
    - rewrite nearest_double_exact by (unfold prec; lia). exact Hs0.
    - apply Z.le_trans with (nearest_double (2 ^ 53)).
      + rewrite nearest_double_exact by (unfold prec; lia). exact Ha53.
      + apply nearest_double_mono; lia. }
  destruct (quotient_shape n0 k0 Hv) as [Eb | (m & e & Eb & Hval & Hb0 & Hb1)];
    rewrite Eb in *.
  - assert (Hlim : (- float_int_limit < s < float_int_limit)%Z) by lia.
    pose proof (float_of_int_ok s Hlim) as Ey. fold (Libm.as_double s) in Ey.
    rewrite (Libm.pow_base_zero eta pow pow_accurate false s _ Ey ltac:(lia)).
    replace (s <? 0)%Z with false by (symmetry; apply Z.ltb_ge; lia).
    cbn. discriminate.
  - set (v := SF2Q (S754_finite false m e)) in *.
    assert (Hpow : Qpower v (nearest_double s) <= 1 # 2 ^ 54).
    { apply Qle_trans with (Qpower v (54 * a)).
      - apply Qpower_unit_anti; [lra | exact Hb1 | lia].
      - replace (54 * a)%Z with (a * 54)%Z by ring. rewrite Qpower_mult.
        apply Qle_trans with (Qpower (1 # 2) 54); [|vm_compute; discriminate].
        apply Qpower_base_mono; [|exact Hhalf | lia].
        apply Qpower_0_le. lra. }
    apply (near_saturated eta eta_nonneg eta_half _ _ _ Hnear); [|exact Hpow].
    apply Qpower_0_lt. exact Hb0.
Qed.

End SaturatedCalls.

Section Loops.
Variable pow : spec_float -> spec_float -> spec_float.

Lemma for_trials_instance (trials : list Z) (detect : Detector)
    (out : list line) :
  fst (fst (Libm.for_trials pow trials detect out)) = detect.
Proof.
  revert out. induction trials as [|t rest IH]; intros out; [reflexivity|].
  cbn [Libm.for_trials]. rewrite call_frame_linked.
  destruct (Libm.detectionProbability pow (n detect) (k detect) t);
    [apply IH|].
  reflexivity.
Qed.

Variable eta : Q.
Hypothesis eta_nonneg : (0 <= eta)%Q.
Hypothesis eta_half : (eta <= 1 # 2)%Q.
Hypothesis pow_accurate : Libm.accurate eta pow.

Lemma for_trials_valid (good rest : list Z) (detect : Detector)
    (out : list line) :
  valid_model (n detect) (k detect) ->
  Forall (fun t => 0 <= t < float_int_limit) good ->
  Libm.for_trials pow (good ++ rest) detect out =
  Libm.for_trials pow rest detect (out ++ Libm.formula_lines pow detect good).
Proof.
  intros Hv Hg. revert out.
  induction Hg as [|t good Ht Hg IH]; intros out.
  - cbn. now rewrite app_nil_r.
  - cbn [app Libm.for_trials]. rewrite call_frame_linked.
    destruct (call_accurate eta eta_nonneg eta_half pow pow_accurate _ _ t Hv Ht) as (-> & _).
    rewrite IH. unfold Libm.formula_lines. cbn [map]. now rewrite <- app_assoc.
Qed.

Lemma formula_lines_unit (detect : Detector) (good : list Z) :
  valid_model (n detect) (k detect) ->
  Forall (fun t => 0 <= t < float_int_limit) good ->
  Forall (fun l : line => in_unit_interval (snd l))
         (Libm.formula_lines pow detect good).
Proof.
  intros Hv Hg. induction Hg as [|t good Ht Hg IH]; [constructor|].
  cbn [Libm.formula_lines map]. constructor; [|exact IH]. cbn [snd].
  now destruct (call_accurate eta eta_nonneg eta_half pow pow_accurate _ _ t Hv Ht) as (_ & _ & Hu).
Qed.

(** When the two ends of the bracket agree, so does the formula. *)
Lemma formula_pinned (n0 k0 s : Z) (R : spec_float) :
  valid_model n0 k0 -> (0 <= s < float_int_limit)%Z ->
  (let t := Qpower (SF2Q (p_success n0 k0)) (nearest_double s) in
   is_finite (round_Q false (t + Libm.slack eta t)) = true /\
   round_Q false (1 - SF2Q (round_Q false (t + Libm.slack eta t))) = R /\
   round_Q false (1 - SF2Q (round_Q false (t - Libm.slack eta t))) = R /\
   is_finite R = true)%Q ->
  Libm.spec_detectionProbability pow n0 k0 s = R.
Proof.
  intros Hv Hs H. pose proof (call_pinned eta eta_nonneg eta_half pow pow_accurate n0 k0 s R Hv Hs H) as E.
  destruct (call_accurate eta eta_nonneg eta_half pow pow_accurate n0 k0 s Hv Hs) as (Ec & _).
  rewrite Ec in E. now injection E.
Qed.
End Loops.

(** ** What the bound leaves open

    Three powers that the GNU C library does not round to the nearest double:
    what it returns is near the exact power in the sense of
    [Libm.near_power], already with the bound [1/16], and differs from
    [Libm.nearest] by one unit in the last place. *)

Section Open.

Lemma notebook_model : valid_model 4096 100.
Proof. unfold valid_model. lia. Qed.

Example library_may_differ :
  (Libm.near_power (1 # 16) (p_success 41 8) 2
     (S754_finite false 5835121944326557 (-53)) /\
   Libm.nearest (p_success 41 8) (Libm.as_double 2) =
     S754_finite false 5835121944326556 (-53)) /\
  (Libm.near_power (1 # 16) (p_success 64 1) 9
     (S754_finite false 7816907078426911 (-53)) /\
   Libm.nearest (p_success 64 1) (Libm.as_double 9) =
     S754_finite false 7816907078426912 (-53)) /\
  (Libm.near_power (1 # 16) (p_success (2 ^ 53) 1) (-1) one /\
   Libm.nearest (p_success (2 ^ 53) 1) (Libm.as_double (-1)) =
     S754_finite false 4503599627370497 (-52)).
Proof.
  split; [|split];
    (split;
       [vm_compute;
        split; (split; [reflexivity |
                split; [reflexivity | intros H; discriminate H]])
       | vm_compute; reflexivity]).
Qed.

End Open.

(** * The claims *)

Section Claims.
Local Open Scope Q_scope.

(** C1, as amended.  On a valid model and for every [s] from [0] up to the
    conversion limit [2^1024 - 2^970] the call returns exactly
    [1.0 - pow(p_success, float(s))]: [p_success] is the floating-point
    quotient [(n - k) / n] the code computes, [float(s)] the nearest double
    to [s], and the power the C library's, one of the doubles around the
    exact power of [p_success] by the integer [float(s)] denotes (a library
    with an error below one ulp).  That integer is [s] itself up to [2^53].
    From the limit on the call raises [OverflowError]. *)
Theorem C1_returns_formula
    (pow : spec_float -> spec_float -> spec_float) (n0 k0 s : Z) :
  Libm.accurate (1 # 2) pow -> valid_model n0 k0 -> (0 <= s)%Z ->
  ((s < float_int_limit)%Z ->
     int_true_div (n0 - k0) n0 = Ok (p_success n0 k0) /\
     float_of_int s = Ok (Libm.as_double s) /\
     Libm.detectionProbability pow n0 k0 s =
       Ok (float_sub one (pow (p_success n0 k0) (Libm.as_double s))) /\
     Libm.near_power (1 # 2) (p_success n0 k0) (nearest_double s)
       (pow (p_success n0 k0) (Libm.as_double s))) /\
  ((s <= 2 ^ 53)%Z -> nearest_double s = s) /\
  ((float_int_limit <= s)%Z ->
     Libm.detectionProbability pow n0 k0 s = Raise OverflowError).
Proof.
  intros Hacc Hv Hs. split; [|split].
  - intros Hl.
    destruct (quotient_valid n0 k0 Hv) as (Ediv & _).
    destruct (call_accurate (1 # 2) half_nonneg (Qle_refl _) pow Hacc
                n0 k0 s Hv (conj Hs Hl)) as (Ec & _).
    destruct (power_accurate (1 # 2) half_nonneg (Qle_refl _) pow Hacc
                n0 k0 s Hv (conj Hs Hl)) as (Hn & _).
    split; [exact Ediv | split; [|split; [exact Ec | exact Hn]]].
    apply float_of_int_ok. assert (0 < float_int_limit)%Z by reflexivity. lia.
  - intros H53. apply nearest_double_exact. unfold prec.
    assert (0 < 2 ^ 53)%Z by reflexivity. lia.
  - intros Hl. apply call_linked_overflow; [exact Hv | now right].
Qed.

Lemma C1_witness :
  Libm.accurate (1 # 2) Libm.nearest /\ valid_model 4096 100 /\ (0 <= 10)%Z /\
  ((10 < float_int_limit)%Z ->
     int_true_div (4096 - 100) 4096 = Ok (p_success 4096 100) /\
     float_of_int 10 = Ok (Libm.as_double 10) /\
     Libm.detectionProbability Libm.nearest 4096 100 10 =
       Ok (float_sub one
             (Libm.nearest (p_success 4096 100) (Libm.as_double 10))) /\
     Libm.near_power (1 # 2) (p_success 4096 100) (nearest_double 10)
       (Libm.nearest (p_success 4096 100) (Libm.as_double 10))) /\
  ((10 <= 2 ^ 53)%Z -> nearest_double 10 = 10%Z) /\
  ((float_int_limit <= 10)%Z ->
     Libm.detectionProbability Libm.nearest 4096 100 10 = Raise OverflowError).
Proof.
  assert (Hv : valid_model 4096 100) by (unfold valid_model; lia).
  split; [exact (nearest_accurate (1 # 2) half_nonneg) |
    split; [exact Hv | split; [lia|]]].
  apply (C1_returns_formula Libm.nearest 4096 100 10
           (nearest_accurate (1 # 2) half_nonneg) Hv). lia.
Defined.

(** C1 as stated fails: [s = 2^1024] is a non-negative integer on a valid
    model and the call raises instead of returning the formula. *)
Lemma C1_counterexample :
  valid_model 2 1 /\ (0 <= 2 ^ 1024)%Z /\
  detectionProbability 2 1 (2 ^ 1024) = Raise OverflowError.
Proof.
  split; [unfold valid_model; lia | split; [lia|]].
  vm_compute. reflexivity.
Qed.

(** C2, as amended.  Construction never fails: for every pair of arguments it
    returns the instance holding them unchanged. *)
Theorem C2_construction_never_fails (n0 k0 : Z) :
  new_Detector n0 k0 = Ok {| n := n0; k := k0 |}.
Proof. reflexivity. Qed.

(** C2 as stated fails: [populationSize = 0], [markedCount = -1] and
    [markedCount = populationSize + 1] are all accepted. *)
Lemma C2_counterexample :
  (0 <= 0)%Z /\ raised (new_Detector 0 0) = false /\
  (-1 < 0)%Z /\ raised (new_Detector 4096 (-1)) = false /\
  (4097 > 4096)%Z /\ raised (new_Detector 4096 4097) = false.
Proof. repeat split; lia. Qed.

Lemma p_success_all_marked (n0 : Z) :
  (0 < n0)%Z -> p_success n0 n0 = S754_zero false.
Proof.
  intros Hn. unfold p_success. rewrite Z.sub_diag.
  rewrite round_signed_nonneg by (unfold Qle; cbn; lia).
  apply round_Q_zero. unfold Qle. cbn. lia.
Qed.

Lemma p_success_none_marked (n0 : Z) : (0 < n0)%Z -> p_success n0 0 = one.
Proof.
  intros Hn. unfold p_success. rewrite Z.sub_0_r.
  assert (E : n0 # Z.to_pos n0 == 1).
  { unfold Qeq. cbn. rewrite Z2Pos.id by exact Hn. ring. }
  rewrite (round_signed_proper _ _ E).
  rewrite round_signed_nonneg by lra. exact round_Q_one.
Qed.

(** A negative count on a model with nothing marked: [1.0 ** s] is [1.0]. *)
Lemma call_negative_none_marked (n0 s : Z) :
  (0 < n0)%Z -> (- float_int_limit < s < 0)%Z ->
  detectionProbability n0 0 s = Ok (S754_zero false).
Proof.
  intros Hn Hs. assert (Hv : valid_model n0 0) by (unfold valid_model; lia).
  rewrite call_unfold. destruct (quotient_valid n0 0 Hv) as (-> & _).
  rewrite p_success_none_marked by exact Hn.
  assert (Ep : float_pow_int one (nearest_double s) = one).
  { unfold one at 1. rewrite float_pow_int_pos. fold one.
    rewrite <- round_Q_one at 2. apply round_Q_proper.
    rewrite (Qpower_comp _ _ SF2Q_one _ _ eq_refl). apply Qpower_1. }
  rewrite math_pow_finite by (try rewrite Ep; try reflexivity; lia).
  rewrite Ep. vm_compute. reflexivity.
Qed.

(** A negative count on a model with everything marked: [0.0 ** s] is a
    division by zero, which [math.pow] reports as a [ValueError]. *)
Lemma call_negative_all_marked (n0 s : Z) :
  (0 < n0)%Z -> (- float_int_limit < s < 0)%Z ->
  detectionProbability n0 n0 s = Raise ValueError.
Proof.
  intros Hn Hs. assert (Hv : valid_model n0 n0) by (unfold valid_model; lia).
  rewrite call_unfold. destruct (quotient_valid n0 n0 Hv) as (-> & _).
  rewrite p_success_all_marked by exact Hn.
  unfold math_pow. rewrite float_of_int_ok by lia. fold (nearest_double s).
  pose proof (nearest_double_neg s Hs) as Hneg.
  unfold float_pow_int.
  replace (nearest_double s =? 0)%Z with false by (symmetry; apply Z.eqb_neq; lia).
  replace (nearest_double s <? 0)%Z with true by (symmetry; apply Z.ltb_lt; lia).
  reflexivity.
Qed.

(** C3, as amended.  On a valid model the call has no check of its own on
    [s]; it fails exactly where the arithmetic does.  Every [s] from [0] up to
    the conversion limit [2^1024 - 2^970] returns a value; every [s] at or
    beyond the limit, on either side, raises [OverflowError]; a negative [s]
    within the limit returns [0.0] when nothing is marked and raises
    [ValueError] when everything is marked. *)
Theorem C3_call_failures (n0 k0 s : Z) :
  valid_model n0 k0 ->
  ((0 <= s < float_int_limit)%Z ->
     raised (detectionProbability n0 k0 s) = false) /\
  ((s <= - float_int_limit \/ float_int_limit <= s)%Z ->
     detectionProbability n0 k0 s = Raise OverflowError) /\
  ((- float_int_limit < s < 0)%Z -> k0 = 0%Z ->
     detectionProbability n0 k0 s = Ok (S754_zero false)) /\
  ((- float_int_limit < s < 0)%Z -> k0 = n0 ->
     detectionProbability n0 k0 s = Raise ValueError).
Proof.
  intros Hv. pose proof Hv as [Hn _]. repeat split.
  - intros Hs. now rewrite call_valid.
  - intros Hs. now apply call_overflow.
  - intros Hs ->. now apply call_negative_none_marked.
  - intros Hs ->. now apply call_negative_all_marked.
Qed.

Lemma C3_witness :
  valid_model 4096 100 /\
  ((0 <= 10 < float_int_limit)%Z ->
     raised (detectionProbability 4096 100 10) = false) /\
  ((10 <= - float_int_limit \/ float_int_limit <= 10)%Z ->
     detectionProbability 4096 100 10 = Raise OverflowError) /\
  ((- float_int_limit < 10 < 0)%Z -> 100%Z = 0%Z ->
     detectionProbability 4096 100 10 = Ok (S754_zero false)) /\
  ((- float_int_limit < 10 < 0)%Z -> 100%Z = 4096%Z ->
     detectionProbability 4096 100 10 = Raise ValueError).
Proof.
  assert (Hv : valid_model 4096 100) by (unfold valid_model; lia).
  split; [exact Hv | apply (C3_call_failures 4096 100 10 Hv)].
Defined.

(** C3 as stated fails on both sides: [s = -1] on a valid model returns
    [-1.0] instead of failing, and the non-negative [s = 2^1024] fails. *)
Lemma C3_counterexample :
  valid_model 2 1 /\
  ((-1 < 0)%Z /\
   detectionProbability 2 1 (-1) = Ok (S754_finite true 4503599627370496 (-52))) /\
  ((0 <= 2 ^ 1024)%Z /\
   detectionProbability 2 1 (2 ^ 1024) = Raise OverflowError).
Proof.
  split; [unfold valid_model; lia|].
  split; (split; [lia | vm_compute; reflexivity]).
Qed.

(** C4, as amended.  On a valid model, for every [s] from [0] up to the
    conversion limit [2^1024 - 2^970], the call returns a finite double in
    the closed interval [[0, 1]], whatever library with an error below one
    ulp computes the power. *)
Theorem C4_result_in_unit_interval
    (pow : spec_float -> spec_float -> spec_float) (n0 k0 s : Z) :
  Libm.accurate (1 # 2) pow -> valid_model n0 k0 -> (0 <= s < float_int_limit)%Z ->
  exists r : spec_float,
    Libm.detectionProbability pow n0 k0 s = Ok r /\ in_unit_interval r.
Proof.
  intros Hacc Hv Hs.
  destruct (call_accurate (1 # 2) half_nonneg (Qle_refl _) pow Hacc
              n0 k0 s Hv Hs) as (Ec & _ & Hu).
  eexists. split; [exact Ec | exact Hu].
Qed.

Lemma C4_witness :
  Libm.accurate (1 # 2) Libm.nearest /\
  valid_model 4096 100 /\ (0 <= 10 < float_int_limit)%Z /\
  exists r : spec_float,
    Libm.detectionProbability Libm.nearest 4096 100 10 = Ok r /\
    in_unit_interval r.
Proof.
  assert (Hv : valid_model 4096 100) by (unfold valid_model; lia).
  assert (Hs : (0 <= 10 < float_int_limit)%Z) by (split; [lia | reflexivity]).
  split; [exact (nearest_accurate (1 # 2) half_nonneg) |
    split; [exact Hv | split; [exact Hs|]]].
  exact (C4_result_in_unit_interval Libm.nearest 4096 100 10
           (nearest_accurate (1 # 2) half_nonneg) Hv Hs).
Defined.

(** C4 as stated fails: at the non-negative [s = 2^1024] the call on a valid
    model returns no value at all. *)
Lemma C4_counterexample :
  valid_model 2 1 /\ (0 <= 2 ^ 1024)%Z /\
  raised (detectionProbability 2 1 (2 ^ 1024)) = true.
Proof.
  split; [unfold valid_model; lia | split; [lia|]].
  vm_compute. reflexivity.
Qed.

(** C5, as amended.  On a valid model the call is non-decreasing in [s] over
    the convertible range: for [0 <= s1 <= s2 < 2^1024 - 2^970] both calls
    return and the first value is at most the second, whatever library with
    an error below [3/4] ulp computes the power.  The error bound is what
    orders the two powers: two different exact powers of a base below [1.0]
    are at least half an ulp apart, and the two slacks together are at most
    half an ulp. *)
Theorem C5_monotone_in_samples
    (pow : spec_float -> spec_float -> spec_float) (n0 k0 s1 s2 : Z) :
  Libm.accurate (1 # 4) pow ->
  valid_model n0 k0 -> (0 <= s1 <= s2)%Z -> (s2 < float_int_limit)%Z ->
  exists r1 r2 : spec_float,
    Libm.detectionProbability pow n0 k0 s1 = Ok r1 /\
    Libm.detectionProbability pow n0 k0 s2 = Ok r2 /\
    float_le r1 r2.
Proof.
  intros Hacc Hv H12 H2.
  destruct (call_accurate (1 # 4) quarter_nonneg quarter_half pow Hacc
              n0 k0 s1 Hv ltac:(lia)) as (E1 & _ & F1 & _).
  destruct (call_accurate (1 # 4) quarter_nonneg quarter_half pow Hacc
              n0 k0 s2 Hv ltac:(lia)) as (E2 & _ & F2 & _).
  do 2 eexists. split; [exact E1 | split; [exact E2|]].
  split; [exact F1 | split; [exact F2|]].
  now apply (formula_mono (1 # 4) quarter_nonneg (Qle_refl _) pow Hacc).
Qed.

Lemma C5_witness :
  Libm.accurate (1 # 4) Libm.nearest /\
  valid_model 4096 100 /\ (0 <= 10 <= 50)%Z /\ (50 < float_int_limit)%Z /\
  exists r1 r2 : spec_float,
    Libm.detectionProbability Libm.nearest 4096 100 10 = Ok r1 /\
    Libm.detectionProbability Libm.nearest 4096 100 50 = Ok r2 /\
    float_le r1 r2.
Proof.
  assert (Hv : valid_model 4096 100) by (unfold valid_model; lia).
  assert (Hs : (0 <= 10 <= 50)%Z) by lia.
  assert (Hl : (50 < float_int_limit)%Z) by reflexivity.
  split; [exact (nearest_accurate (1 # 4) quarter_nonneg) |
    split; [exact Hv | split; [exact Hs | split; [exact Hl|]]]].
  exact (C5_monotone_in_samples Libm.nearest 4096 100 10 50
           (nearest_accurate (1 # 4) quarter_nonneg) Hv Hs Hl).
Defined.

(** C5 as stated fails: [0 <= 1 <= 2^1024], the call at [1] returns [0.5]
    and the call at [2^1024] returns nothing to compare it with. *)
Lemma C5_counterexample :
  valid_model 2 1 /\ (0 <= 1 <= 2 ^ 1024)%Z /\
  detectionProbability 2 1 1 = Ok (S754_finite false 4503599627370496 (-53)) /\
  raised (detectionProbability 2 1 (2 ^ 1024)) = true.
Proof.
  split; [unfold valid_model; lia | split; [lia|]].
  split; vm_compute; reflexivity.
Qed.

(** C6.  The notebook's run: the model with [n = 4096] and [k = 100] returns,
    for 10, 50 and 100 samples, the doubles [7890029110583360 * 2^-55],
    [6389821846516458 * 2^-53] and [8246622708876494 * 2^-53], which are the
    doubles that the printed decimals 0.2189922995883098, 0.7094127337255405
    and 0.9155590406791363 stand for, whatever library with an error below
    [9/16] ulp computes the power.  The three values do not depend on the
    library's last bit: both ends of the bracket around each exact power give
    the same difference from [1.0]. *)
Theorem C6_notebook_values
    (pow : spec_float -> spec_float -> spec_float) :
  Libm.accurate (1 # 16) pow ->
  (Libm.detectionProbability pow 4096 100 10 =
     Ok (S754_finite false 7890029110583360 (-55)) /\
   reads_as 2189922995883098 16 (S754_finite false 7890029110583360 (-55))) /\
  (Libm.detectionProbability pow 4096 100 50 =
     Ok (S754_finite false 6389821846516458 (-53)) /\
   reads_as 7094127337255405 16 (S754_finite false 6389821846516458 (-53))) /\
  (Libm.detectionProbability pow 4096 100 100 =
     Ok (S754_finite false 8246622708876494 (-53)) /\
   reads_as 9155590406791363 16 (S754_finite false 8246622708876494 (-53))).
Proof.
  intros Hacc.
  repeat split;
    try (apply (call_pinned (1 # 16) sixteenth_nonneg sixteenth_half pow Hacc);
         [exact notebook_model | split; [lia | reflexivity] |
          vm_compute; repeat split; reflexivity]);
    vm_compute; reflexivity.
Qed.

Lemma C6_witness :
  Libm.accurate (1 # 16) Libm.nearest /\
  (Libm.detectionProbability Libm.nearest 4096 100 10 =
     Ok (S754_finite false 7890029110583360 (-55)) /\
   reads_as 2189922995883098 16 (S754_finite false 7890029110583360 (-55))) /\
  (Libm.detectionProbability Libm.nearest 4096 100 50 =
     Ok (S754_finite false 6389821846516458 (-53)) /\
   reads_as 7094127337255405 16 (S754_finite false 6389821846516458 (-53))) /\
  (Libm.detectionProbability Libm.nearest 4096 100 100 =
     Ok (S754_finite false 8246622708876494 (-53)) /\
   reads_as 9155590406791363 16 (S754_finite false 8246622708876494 (-53))).
Proof.
  split; [exact (nearest_accurate (1 # 16) sixteenth_nonneg)|].
  exact (C6_notebook_values Libm.nearest
           (nearest_accurate (1 # 16) sixteenth_nonneg)).
Defined.

(** C7, as amended.  When every element is marked the call returns exactly
    [1.0] for every [s] from [1] up to the conversion limit
    [2^1024 - 2^970]. *)
Theorem C7_all_marked_is_one (n0 s : Z) :
  (0 < n0)%Z -> (1 <= s < float_int_limit)%Z ->
  detectionProbability n0 n0 s = Ok one.
Proof.
  intros Hn Hs. assert (Hv : valid_model n0 n0) by (unfold valid_model; lia).
  rewrite call_valid by (try exact Hv; lia). f_equal.
  unfold spec_detectionProbability. rewrite p_success_all_marked by exact Hn.
  pose proof (nearest_double_pos s Hs) as Hp. unfold float_pow_int.
  replace (nearest_double s =? 0)%Z with false by (symmetry; apply Z.eqb_neq; lia).
  replace (nearest_double s <? 0)%Z with false by (symmetry; apply Z.ltb_ge; lia).
  reflexivity.
Qed.

Lemma C7_witness :
  (0 < 4096)%Z /\ (1 <= 10 < float_int_limit)%Z /\
  detectionProbability 4096 4096 10 = Ok one.
Proof.
  assert (Hn : (0 < 4096)%Z) by lia.
  assert (Hs : (1 <= 10 < float_int_limit)%Z) by (split; [lia | reflexivity]).
  split; [exact Hn | split; [exact Hs|]].
  exact (C7_all_marked_is_one 4096 10 Hn Hs).
Defined.

(** C7 as stated fails: [s = 2^1024] is at least [1] and the call on the
    model with everything marked raises instead of returning [1.0]. *)
Lemma C7_counterexample :
  (0 < 2)%Z /\ (1 <= 2 ^ 1024)%Z /\
  detectionProbability 2 2 (2 ^ 1024) = Raise OverflowError.
Proof. split; [lia | split; [lia|]]. vm_compute. reflexivity. Qed.

(** C8.  The call leaves the instance as it found it, whatever the instance
    and whatever [s], also when it raises; what it returns or raises is a
    function of the two attributes and [s] alone. *)
Theorem C8_call_does_not_mutate (self : Detector) (s : Z) :
  fst (__call__ s self) = self /\
  snd (__call__ s self) = detectionProbability (n self) (k self) s.
Proof.
  unfold detectionProbability, new_Detector, __init__, __call__,
    bind, set_n, set_k, get_n, get_k, lift, ret. cbn.
  destruct (int_true_div (n self - k self) (n self)); [|split; reflexivity].
  destruct (math_pow a s); split; reflexivity.
Qed.

(** C9.  The constructor checks neither argument, so a model with
    [populationSize = 0] is built like any other; every call on it then
    raises [ZeroDivisionError], whatever [markedCount] and [s]. *)
Theorem C9_zero_population (k0 s : Z) :
  (forall n0 : Z, new_Detector n0 k0 = Ok {| n := n0; k := k0 |}) /\
  __call__ s {| n := 0; k := k0 |} =
    ({| n := 0; k := k0 |}, Raise ZeroDivisionError) /\
  detectionProbability 0 k0 s = Raise ZeroDivisionError.
Proof. repeat split. Qed.

(** ** Negative sample counts *)



End Claims.

(** * More of the two notebooks *)

Section MoreOfTheCall.
Local Open Scope Q_scope.

(** A call is a function of the two attributes and leaves them alone. *)
Lemma call_frame (self : Detector) (s : Z) :
  __call__ s self = (self, detectionProbability (n self) (k self) s).
Proof.
  unfold detectionProbability, new_Detector, __init__, __call__,
    bind, set_n, set_k, get_n, get_k, lift, ret. cbn.
  destruct (int_true_div (n self - k self) (n self)); [|reflexivity].
  destruct (math_pow a s); reflexivity.
Qed.

Lemma int_true_div_finite (a b : Z) (x : spec_float) :
  int_true_div a b = Ok x -> is_finite x = true.
Proof.
  unfold int_true_div. destruct (Z.eqb b 0); [discriminate|].
  destruct (is_finite (round_Q _ _)) eqn:E; [|discriminate].
  intros H. injection H as <-. exact E.
Qed.

Lemma int_true_div_raises (a b : Z) (e : exn) :
  int_true_div a b = Raise e ->
  (e = ZeroDivisionError /\ b = 0%Z) \/ (e = OverflowError /\ b <> 0%Z).
Proof.
  unfold int_true_div. destruct (Z.eqb_spec b 0) as [E | NE].
  - intros H. injection H as <-. now left.
  - destruct (is_finite (round_Q _ _)); [discriminate|].
    intros H. injection H as <-. now right.
Qed.

Lemma math_pow_zero_samples (x : spec_float) :
  is_finite x = true -> math_pow x 0 = Ok one.
Proof.
  intros Hx. unfold math_pow. change (float_of_int 0) with (Ok (S754_zero false)).
  change (SF2Z (S754_zero false)) with 0%Z. rewrite Hx. reflexivity.
Qed.

(** X1.  Zero samples.  With [s = 0] a call that returns gives exactly
    [+0.0], on any model; on a valid model it does return. *)
Theorem X1_zero_samples (n0 k0 : Z) :
  (forall r : spec_float,
     detectionProbability n0 k0 0 = Ok r -> r = S754_zero false) /\
  (valid_model n0 k0 ->
     detectionProbability n0 k0 0 = Ok (S754_zero false)).
Proof.
  assert (P : forall b, int_true_div (n0 - k0) n0 = Ok b ->
              detectionProbability n0 k0 0 = Ok (S754_zero false)).
  { intros b Hb. rewrite call_unfold, Hb.
    rewrite math_pow_zero_samples by exact (int_true_div_finite _ _ _ Hb).
    reflexivity. }
  split.
  - intros r Hr. rewrite call_unfold in Hr.
    destruct (int_true_div (n0 - k0) n0) as [b | e] eqn:Hb; [|discriminate].
    rewrite call_unfold, Hb in P. specialize (P b eq_refl).
    rewrite P in Hr. now injection Hr as <-.
  - intros Hv. destruct (quotient_valid n0 k0 Hv) as (Hb & _).
    exact (P _ Hb).
Qed.

Lemma pow_of_one (p : Z) : float_pow_int one p = one.
Proof.
  unfold one at 1. rewrite float_pow_int_pos. fold one.
  rewrite <- round_Q_one at 2. apply round_Q_proper.
  rewrite (Qpower_comp _ _ SF2Q_one _ _ eq_refl). apply Qpower_1.
Qed.

(** X2.  Nothing marked.  With [k = 0] and [n > 0] the call returns exactly
    [+0.0] for every [s] inside the conversion limit, negative ones
    included. *)
Theorem X2_none_marked (n0 s : Z) :
  (0 < n0)%Z -> (- float_int_limit < s < float_int_limit)%Z ->
  detectionProbability n0 0 s = Ok (S754_zero false).
Proof.
  intros Hn Hs. assert (Hv : valid_model n0 0) by (unfold valid_model; lia).
  rewrite call_unfold. destruct (quotient_valid n0 0 Hv) as (-> & _).
  rewrite p_success_none_marked by exact Hn.
  rewrite math_pow_finite by (try rewrite pow_of_one; try reflexivity; lia).
  rewrite pow_of_one. vm_compute. reflexivity.
Qed.

Lemma X2_witness :
  (0 < 4096)%Z /\ (- float_int_limit < -3 < float_int_limit)%Z /\
  detectionProbability 4096 0 (-3) = Ok (S754_zero false).
Proof.
  assert (Hn : (0 < 4096)%Z) by lia.
  assert (Hs : (- float_int_limit < -3 < float_int_limit)%Z)
    by (split; reflexivity).
  split; [exact Hn | split; [exact Hs|]].
  exact (X2_none_marked 4096 (-3) Hn Hs).
Defined.

(** X3.  The division by zero.  The call raises [ZeroDivisionError] exactly
    when [n = 0], whatever [k] and [s]. *)
Theorem X3_zero_division_iff (n0 k0 s : Z) :
  detectionProbability n0 k0 s = Raise ZeroDivisionError <-> n0 = 0%Z.
Proof.
  split.
  - rewrite call_unfold.
    destruct (int_true_div (n0 - k0) n0) as [b | e] eqn:Hb.
    + destruct (math_pow b s) as [p | e] eqn:Hp; [discriminate|].
      intros H. injection H as ->.
      destruct (math_pow_raises _ _ _ Hp); discriminate.
    + intros H. injection H as ->.
      destruct (int_true_div_raises _ _ _ Hb) as [[_ E] | [E _]];
        [exact E | discriminate].
  - intros ->. reflexivity.
Qed.
End MoreOfTheCall.

Section ResultShape.
Local Open Scope Q_scope.

Lemma max_float_nonneg : 0 <= max_float.
Proof. vm_compute. discriminate. Qed.

(** Every finite double that [round_Q] returns is within the largest one. *)
Lemma round_Q_abs_le_max (neg : bool) (q : Q) :
  is_finite (round_Q neg q) = true -> Qabs (SF2Q (round_Q neg q)) <= max_float.
Proof.
  intros Hf. destruct (round_Q_sign neg q) as [Ef Ev]. rewrite Ef in Hf.
  pose proof (round_Q_le_max q Hf) as Hm. pose proof (round_Q_nonneg q) as H0.
  rewrite Ev. destruct neg; cbn [sgn].
  - rewrite Qabs_opp, Qabs_pos; assumption.
  - rewrite Qabs_pos; assumption.
Qed.

Lemma float_pow_int_abs_le_max (x : spec_float) (p : Z) :
  is_finite (float_pow_int x p) = true ->
  Qabs (SF2Q (float_pow_int x p)) <= max_float.
Proof.
  unfold float_pow_int. destruct (Z.eqb p 0).
  - intros _. vm_compute. discriminate.
  - destruct x as [sx | sx | | sx m e].
    + destruct (Z.ltb p 0); [discriminate|]. intros _. cbn.
      exact max_float_nonneg.
    + destruct (Z.ltb p 0); [|discriminate]. intros _. cbn.
      exact max_float_nonneg.
    + discriminate.
    + apply round_Q_abs_le_max.
Qed.

Lemma round_past_max_finite :
  is_finite (round_Q false (1 + max_float)) = true.
Proof. vm_compute. reflexivity. Qed.

(** [1.0 - p] is finite for every finite double [p] in range. *)
Lemma float_sub_one_finite (p : spec_float) :
  is_finite p = true -> Qabs (SF2Q p) <= max_float ->
  is_finite (float_sub one p) = true.
Proof.
  intros Hf Hm. rewrite float_sub_one by exact Hf. unfold round_signed.
  destruct (round_Q_sign (negb (Qle_bool 0 (1 - SF2Q p)))
                         (Qabs (1 - SF2Q p))) as [-> _].
  apply (round_Q_mono _ (1 + max_float)); [|exact round_past_max_finite].
  apply Qabs_Qle_condition in Hm. apply Qabs_Qle_condition. lra.
Qed.

Lemma math_pow_returns_finite (x : spec_float) (s : Z) (p : spec_float) :
  is_finite x = true -> math_pow x s = Ok p ->
  is_finite p = true /\ exists y, float_of_int s = Ok y /\
  p = float_pow_int x (SF2Z y).
Proof.
  intros Hx. unfold math_pow.
  destruct (float_of_int s) as [y | e]; [|discriminate]. rewrite Hx.
  destruct (float_pow_int x (SF2Z y)) eqn:E; try discriminate;
    try (destruct (is_zero x); discriminate);
    intros H; injection H as <-; (split; [reflexivity | exists y; now split]).
Qed.

(** X5.  The result is a number.  Whatever the three integers, a call that
    returns gives a finite double, never an infinity and never a NaN. *)
Theorem X5_result_is_finite (n0 k0 s : Z) (r : spec_float) :
  detectionProbability n0 k0 s = Ok r -> is_finite r = true.
Proof.
  rewrite call_unfold.
  destruct (int_true_div (n0 - k0) n0) as [b | e] eqn:Hb; [|discriminate].
  destruct (math_pow b s) as [p | e] eqn:Hp; [|discriminate].
  intros H. injection H as <-.
  pose proof (int_true_div_finite _ _ _ Hb) as Hbf.
  destruct (math_pow_returns_finite b s p Hbf Hp) as (Hpf & y & _ & ->).
  apply float_sub_one_finite; [exact Hpf|].
  now apply float_pow_int_abs_le_max.
Qed.

Lemma X5_witness :
  detectionProbability 4096 100 10 =
    Ok (S754_finite false 7890029110583360 (-55)) /\
  is_finite (S754_finite false 7890029110583360 (-55)) = true.
Proof.
  assert (H : detectionProbability 4096 100 10 =
              Ok (S754_finite false 7890029110583360 (-55)))
    by (vm_compute; reflexivity).
  split; [exact H|].
  exact (X5_result_is_finite 4096 100 10 _ H).
Defined.

(** With a zero quotient the sign of the zero does not show in the result. *)
Lemma zero_base_sign (sg : bool) (s : Z) :
  match math_pow (S754_zero sg) s with
  | Ok p => Ok (float_sub one p)
  | Raise e => Raise e
  end =
  match math_pow (S754_zero false) s with
  | Ok p => Ok (float_sub one p)
  | Raise e => Raise e
  end.
Proof.
  unfold math_pow. destruct (float_of_int s) as [y | e]; [|reflexivity].
  cbn [is_finite]. unfold float_pow_int.
  destruct (Z.eqb (SF2Z y) 0); [reflexivity|].
  destruct (Z.ltb (SF2Z y) 0); [reflexivity|].
  cbn [andb]. destruct (sg && Z.odd (SF2Z y))%bool; reflexivity.
Qed.

(** X6.  A mirrored model.  Negating both [n] and [k] changes nothing: the
    call on [(-n, -k)] returns or raises what the call on [(n, k)] does. *)
Theorem X6_negated_model (n0 k0 s : Z) :
  detectionProbability (- n0) (- k0) s = detectionProbability n0 k0 s.
Proof.
  rewrite !call_unfold.
  replace (- n0 - - k0)%Z with (- (n0 - k0))%Z by ring.
  set (a := (n0 - k0)%Z). unfold int_true_div.
  destruct (Z.eqb_spec n0 0) as [-> | Hn]; [reflexivity|].
  destruct (Z.eqb_spec (- n0) 0) as [E | _]; [lia|].
  rewrite !Z.abs_opp.
  destruct (Z.eq_dec a 0) as [Ha | Ha].
  - rewrite Ha. cbn [Z.opp Z.abs].
    rewrite !(round_Q_zero _ (0 # _)) by (unfold Qle; cbn; lia).
    cbn [is_finite]. rewrite zero_base_sign. symmetry.
    rewrite zero_base_sign. reflexivity.
  - replace (xorb (- a <? 0)%Z (- n0 <? 0)%Z) with (xorb (a <? 0)%Z (n0 <? 0)%Z).
    + reflexivity.
    + destruct (Z.ltb_spec a 0), (Z.ltb_spec n0 0),
        (Z.ltb_spec (- a) 0), (Z.ltb_spec (- n0) 0); try reflexivity; lia.
Qed.
End ResultShape.

Section DomainErrors.
Local Open Scope Q_scope.

(** The power of a non-zero finite base never is a domain error. *)
Lemma math_pow_nonzero_base (sx : bool) (m : positive) (e : Z) (s : Z) :
  math_pow (S754_finite sx m e) s <> Raise ValueError.
Proof.
  unfold math_pow. destruct (float_of_int s) as [y | ex] eqn:Ey.
  - cbn [is_finite is_zero]. unfold float_pow_int.
    destruct (Z.eqb (SF2Z y) 0); [discriminate|].
    pose proof (round_Q_not_nan (sx && Z.odd (SF2Z y))
      (Qpower (Qabs (SF2Q (S754_finite sx m e))) (SF2Z y))) as Hn.
    destruct (round_Q _ _); try discriminate. congruence.
  - unfold float_of_int in Ey. destruct (is_finite _); [discriminate|].
    injection Ey as <-. discriminate.
Qed.

(** On a model of at most [2^1074] elements, not all of them marked, the
    quotient does not underflow to zero. *)
Lemma quotient_nonzero (n0 k0 : Z) :
  valid_model n0 k0 -> (k0 < n0)%Z -> (n0 <= 2 ^ 1074)%Z ->
  exists m e, p_success n0 k0 = S754_finite false m e.
Proof.
  intros Hv Hk Hn. pose proof Hv as (Hn0 & Hk0 & _).
  destruct (quotient_valid n0 k0 Hv) as (_ & Eb & Hbf & _).
  assert (EP : Zpos (2 ^ 1074) = (2 ^ 1074)%Z) by reflexivity.
  assert (Hlo : (1 # 2 ^ 1074) <= (n0 - k0) # Z.to_pos n0).
  { unfold Qle. cbn [Qnum Qden]. rewrite Z2Pos.id, EP by lia.
    revert Hn. generalize (2 ^ 1074)%Z. intros P HP. nia. }
  rewrite Eb in Hbf. destruct (round_Q_mono _ _ Hlo Hbf) as [_ H].
  assert (E : SF2Q (round_Q false (1 # 2 ^ 1074)) == 1 # 2 ^ 1074)
    by (vm_compute; reflexivity).
  rewrite E, <- Eb in H.
  assert (Hs : sign_of (p_success n0 k0) = false)
    by (rewrite Eb; apply sign_of_round_Q).
  rewrite <- Eb in Hbf.
  assert (Hpos : 0 < SF2Q (p_success n0 k0))
    by (apply Qlt_le_trans with (1 # 2 ^ 1074); [reflexivity | exact H]).
  clear H E Hlo EP Eb.
  destruct (p_success n0 k0) as [sb | sb | | sb m e];
    try discriminate Hbf.
  - exfalso. cbn [SF2Q] in Hpos. discriminate Hpos.
  - cbn [sign_of] in Hs. subst sb. now exists m, e.
Qed.

(** X4.  The domain error.  On a valid model of at most [2^1074] elements
    the call raises [ValueError] exactly when everything is marked and [s] is
    negative and inside the conversion limit. *)
Theorem X4_value_error_iff (n0 k0 s : Z) :
  valid_model n0 k0 -> (n0 <= 2 ^ 1074)%Z ->
  (detectionProbability n0 k0 s = Raise ValueError <->
   k0 = n0 /\ (- float_int_limit < s < 0)%Z).
Proof.
  intros Hv Hn. pose proof Hv as (Hn0 & Hk0 & Hk1). split.
  - intros H. destruct (Z.eq_dec k0 n0) as [-> | Hk].
    + split; [reflexivity|].
      destruct (Z_le_gt_dec s (- float_int_limit)) as [H1 | H1];
        [rewrite call_overflow in H by (try exact Hv; now left); discriminate|].
      destruct (Z_le_gt_dec float_int_limit s) as [H2 | H2];
        [rewrite call_overflow in H by (try exact Hv; now right); discriminate|].
      destruct (Z_le_gt_dec 0 s) as [H3 | H3]; [|lia].
      rewrite call_valid in H by (try exact Hv; lia). discriminate.
    + exfalso. rewrite call_unfold in H.
      destruct (quotient_valid n0 k0 Hv) as (Hdiv & _). rewrite Hdiv in H.
      destruct (quotient_nonzero n0 k0 Hv ltac:(lia) Hn) as (m & e & Ep).
      rewrite Ep in H.
      destruct (math_pow (S754_finite false m e) s) as [p | ex] eqn:Hp;
        [discriminate|].
      injection H as ->. exact (math_pow_nonzero_base _ _ _ _ Hp).
  - intros [-> Hs]. now apply call_negative_all_marked.
Qed.
Lemma X4_witness :
  valid_model 2 2 /\ (2 <= 2 ^ 1074)%Z /\
  (detectionProbability 2 2 (-1) = Raise ValueError <->
   2%Z = 2%Z /\ (- float_int_limit < -1 < 0)%Z).
Proof.
  assert (Hv : valid_model 2 2) by (unfold valid_model; lia).
  assert (Hn : (2 <= 2 ^ 1074)%Z) by (vm_compute; discriminate).
  split; [exact Hv | split; [exact Hn|]].
  exact (X4_value_error_iff 2 2 (-1) Hv Hn).
Defined.
End DomainErrors.

Section MoreMarkedThanThere.
Local Open Scope Q_scope.

(** X7.  More marked than there is.  With [0 < n <= 2^52] and
    [n < k <= 2^53] one sample already gives a value above [1.0]. *)
Theorem X7_overmarked_exceeds_one (n0 k0 : Z) :
  (0 < n0 <= 2 ^ 52)%Z -> (n0 < k0 <= 2 ^ 53)%Z ->
  exists r : spec_float,
    detectionProbability n0 k0 1 = Ok r /\ is_finite r = true /\ 1 < SF2Q r.
Proof.
  intros [Hn0 Hn1] [Hk0 Hk1].
  set (q := (k0 - n0) # Z.to_pos n0).
  assert (EP : Zpos (2 ^ 52) = (2 ^ 52)%Z) by reflexivity.
  assert (Hlo : (1 # 2 ^ 52) <= q).
  { unfold q, Qle. cbn [Qnum Qden]. rewrite Z2Pos.id, EP by lia.
    revert Hn1. generalize (2 ^ 52)%Z. intros P HP. nia. }
  assert (Hhi : q <= inject_Z (2 ^ 53)).
  { unfold q, Qle. cbn [Qnum Qden inject_Z]. rewrite Z2Pos.id by lia.
    revert Hk1. generalize (2 ^ 53)%Z. intros P HP. nia. }
  assert (F53 : is_finite (round_Q false (inject_Z (2 ^ 53))) = true)
    by (vm_compute; reflexivity).
  assert (V53 : SF2Q (round_Q false (inject_Z (2 ^ 53))) == inject_Z (2 ^ 53))
    by (vm_compute; reflexivity).
  assert (Vulp : SF2Q (round_Q false (1 # 2 ^ 52)) == 1 # 2 ^ 52)
    by (vm_compute; reflexivity).
  assert (Hulp : 0 < 1 # 2 ^ 52) by reflexivity.
  (* the quotient *)
  destruct (round_Q_mono _ _ Hhi F53) as [Hbf Hbhi]. rewrite V53 in Hbhi.
  destruct (round_Q_mono _ _ Hlo Hbf) as [_ Hblo]. rewrite Vulp in Hblo.
  set (v := SF2Q (round_Q false q)) in *.
  assert (Ediv : int_true_div (n0 - k0) n0 = Ok (round_Q true q)).
  { unfold int_true_div. destruct (Z.eqb_spec n0 0) as [E | _]; [lia|].
    replace (n0 - k0 <? 0)%Z with true by (symmetry; apply Z.ltb_lt; lia).
    replace (n0 <? 0)%Z with false by (symmetry; apply Z.ltb_ge; lia).
    cbn [xorb]. replace (Z.abs (n0 - k0)) with (k0 - n0)%Z by lia.
    rewrite (Z.abs_eq n0) by lia. fold q.
    destruct (round_Q_sign true q) as [-> _]. now rewrite Hbf. }
  destruct (round_Q_sign true q) as [Ebf Ebv]. cbn [sgn] in Ebv. fold v in Ebv.
  (* the power *)
  assert (Epow : float_pow_int (round_Q true q) 1 = round_Q true v).
  { rewrite Hbf in Ebf.
    destruct (round_Q true q) as [sb | sb | | sb m e] eqn:Eb;
      try discriminate Ebf.
    - exfalso. cbn [SF2Q] in Ebv. lra.
    - assert (sb = true) as ->
        by (pose proof (sign_of_round_Q true q) as Hs; rewrite Eb in Hs; exact Hs).
      unfold float_pow_int. cbn [Z.eqb Z.odd andb]. apply round_Q_proper.
      rewrite Qpower_1_r, Ebv, Qabs_opp. apply Qabs_pos. lra. }
  destruct (round_Q_mono _ _ Hbhi F53) as [Hpf Hphi]. rewrite V53 in Hphi.
  destruct (round_Q_mono _ _ Hblo Hpf) as [_ Hplo]. rewrite Vulp in Hplo.
  destruct (round_Q_sign true v) as [Epf Epv]. cbn [sgn] in Epv.
  set (w := SF2Q (round_Q false v)) in *.
  assert (Hpow : math_pow (round_Q true q) 1 = Ok (round_Q true v)).
  { rewrite math_pow_finite.
    - now rewrite nearest_double_1, Epow.
    - split; reflexivity.
    - now rewrite Ebf.
    - now rewrite nearest_double_1, Epow, Epf. }
  (* the subtraction *)
  exists (float_sub one (round_Q true v)).
  split; [now rewrite call_unfold, Ediv, Hpow|].
  rewrite float_sub_one by (now rewrite Epf).
  assert (Es : round_signed (1 - SF2Q (round_Q true v)) = round_Q false (1 + w)).
  { rewrite round_signed_nonneg by (rewrite Epv; lra).
    apply round_Q_proper. rewrite Epv. ring. }
  rewrite Es.
  assert (Ftop : is_finite (round_Q false (1 + inject_Z (2 ^ 53))) = true)
    by (vm_compute; reflexivity).
  destruct (round_Q_mono (1 + w) (1 + inject_Z (2 ^ 53)) ltac:(lra) Ftop)
    as [Hrf _].
  split; [exact Hrf|].
  destruct (round_Q_mono (1 + (1 # 2 ^ 52)) (1 + w) ltac:(lra) Hrf) as [_ Hr].
  assert (Vnext : SF2Q (round_Q false (1 + (1 # 2 ^ 52))) == 1 + (1 # 2 ^ 52))
    by (vm_compute; reflexivity).
  rewrite Vnext in Hr. lra.
Qed.
Lemma X7_witness :
  (0 < 2 <= 2 ^ 52)%Z /\ (2 < 3 <= 2 ^ 53)%Z /\
  exists r : spec_float,
    detectionProbability 2 3 1 = Ok r /\ is_finite r = true /\ 1 < SF2Q r.
Proof.
  assert (Hn : (0 < 2 <= 2 ^ 52)%Z) by (split; [lia | vm_compute; discriminate]).
  assert (Hk : (2 < 3 <= 2 ^ 53)%Z) by (split; [lia | vm_compute; discriminate]).
  split; [exact Hn | split; [exact Hk|]].
  exact (X7_overmarked_exceeds_one 2 3 Hn Hk).
Defined.
End MoreMarkedThanThere.

Section Saturation.
Local Open Scope Q_scope.

(** X8.  Saturation.  As soon as some power [a] of the floating-point
    quotient is at most one half (with [54 * a <= 2^53]), every call with
    [54 * a <= s < 2^1024 - 2^970] returns a double equal to [1.0], whatever
    library with an error below one ulp computes the power: the value does
    not only approach one, it reaches it. *)
Theorem X8_saturates_at_one
    (pow : spec_float -> spec_float -> spec_float) (n0 k0 a s : Z) :
  Libm.accurate (1 # 2) pow ->
  valid_model n0 k0 -> (1 <= a)%Z -> (54 * a <= 2 ^ 53)%Z ->
  (Qpower (SF2Q (p_success n0 k0)) a <= 1 # 2)%Q ->
  (54 * a <= s < float_int_limit)%Z ->
  exists r : spec_float,
    Libm.detectionProbability pow n0 k0 s = Ok r /\
    is_finite r = true /\ (SF2Q r == 1)%Q.
Proof.
  intros Hacc.
  exact (saturation (1 # 2) half_nonneg (Qle_refl _) pow Hacc n0 k0 a s).
Qed.

(** The notebook's model: the 29th power of [3996 / 4096] is below one
    half, so from 1566 samples on the value is [1.0]. *)
Lemma X8_witness :
  Libm.accurate (1 # 2) Libm.nearest /\
  valid_model 4096 100 /\ (1 <= 29)%Z /\ (54 * 29 <= 2 ^ 53)%Z /\
  (Qpower (SF2Q (p_success 4096 100)) 29 <= 1 # 2)%Q /\
  (54 * 29 <= 1566 < float_int_limit)%Z /\
  exists r : spec_float,
    Libm.detectionProbability Libm.nearest 4096 100 1566 = Ok r /\
    is_finite r = true /\ (SF2Q r == 1)%Q.
Proof.
  assert (Hv : valid_model 4096 100) by (unfold valid_model; lia).
  assert (Ha : (1 <= 29)%Z) by lia.
  assert (Hb : (54 * 29 <= 2 ^ 53)%Z) by (vm_compute; discriminate).
  assert (Hh : (Qpower (SF2Q (p_success 4096 100)) 29 <= 1 # 2)%Q)
    by (vm_compute; discriminate).
  assert (Hs : (54 * 29 <= 1566 < float_int_limit)%Z)
    by (split; [lia | reflexivity]).
  split; [exact (nearest_accurate (1 # 2) half_nonneg) | split; [exact Hv | split; [exact Ha |
    split; [exact Hb | split; [exact Hh | split; [exact Hs|]]]]]].
  exact (X8_saturates_at_one Libm.nearest 4096 100 29 1566
           (nearest_accurate (1 # 2) half_nonneg) Hv Ha Hb Hh Hs).
Defined.

(** X9.  Half marked.  When at least half of the elements are marked, every
    call with [54 <= s < 2^1024 - 2^970] returns a double equal to [1.0],
    whatever library with an error below one ulp computes the power. *)
Theorem X9_half_marked_saturates
    (pow : spec_float -> spec_float -> spec_float) (n0 k0 s : Z) :
  Libm.accurate (1 # 2) pow ->
  valid_model n0 k0 -> (n0 <= 2 * k0)%Z -> (54 <= s < float_int_limit)%Z ->
  exists r : spec_float,
    Libm.detectionProbability pow n0 k0 s = Ok r /\
    is_finite r = true /\ (SF2Q r == 1)%Q.
Proof.
  intros Hacc Hv Hk Hs. pose proof Hv as (Hn0 & Hk0 & Hk1).
  apply (saturation (1 # 2) half_nonneg (Qle_refl _) pow Hacc n0 k0 1 s);
    try assumption; try lia.
  rewrite Qpower_1_r.
  destruct (quotient_valid n0 k0 Hv) as (_ & -> & _).
  assert (Hq : ((n0 - k0) # Z.to_pos n0 <= 1 # 2)%Q).
  { unfold Qle. cbn [Qnum Qden]. rewrite Z2Pos.id by lia. lia. }
  assert (Fh : is_finite (round_Q false (1 # 2)) = true) by reflexivity.
  destruct (round_Q_mono _ _ Hq Fh) as [_ H].
  assert (Vh : (SF2Q (round_Q false (1 # 2)) == 1 # 2)%Q)
    by (vm_compute; reflexivity).
  now rewrite Vh in H.
Qed.

Lemma X9_witness :
  Libm.accurate (1 # 2) Libm.nearest /\
  valid_model 2 1 /\ (2 <= 2 * 1)%Z /\ (54 <= 54 < float_int_limit)%Z /\
  exists r : spec_float,
    Libm.detectionProbability Libm.nearest 2 1 54 = Ok r /\
    is_finite r = true /\ (SF2Q r == 1)%Q.
Proof.
  assert (Hv : valid_model 2 1) by (unfold valid_model; lia).
  assert (Hk : (2 <= 2 * 1)%Z) by lia.
  assert (Hs : (54 <= 54 < float_int_limit)%Z) by (split; [lia | reflexivity]).
  split; [exact (nearest_accurate (1 # 2) half_nonneg) |
    split; [exact Hv | split; [exact Hk | split; [exact Hs|]]]].
  exact (X9_half_marked_saturates Libm.nearest 2 1 54
           (nearest_accurate (1 # 2) half_nonneg) Hv Hk Hs).
Defined.

End Saturation.

Section Loop.

(** X10.  The loop.  A run of the loop never changes the instance it calls,
    whatever the library.  On a valid model and with a library whose error is
    below one ulp it prints one line per count for as long as the counts are
    in [[0, 2^1024 - 2^970)], each line carrying the value of
    [1.0 - pow(p_success, float(count))], a double in [[0, 1]]; at the first
    count whose call raises it stops with that exception and keeps what it
    printed. *)
Theorem X10_loop_over_one_instance
    (pow : spec_float -> spec_float -> spec_float)
    (detect : Detector) (out : list line) :
  (forall trials : list Z,
     fst (fst (Libm.for_trials pow trials detect out)) = detect) /\
  (Libm.accurate (1 # 2) pow -> valid_model (n detect) (k detect) ->
   forall good : list Z,
     Forall (fun t => 0 <= t < float_int_limit) good ->
     Libm.for_trials pow good detect out =
       (detect, out ++ Libm.formula_lines pow detect good, None) /\
     Forall (fun l : line => in_unit_interval (snd l))
            (Libm.formula_lines pow detect good) /\
     forall (t : Z) (rest : list Z) (e : exn),
       Libm.detectionProbability pow (n detect) (k detect) t = Raise e ->
       Libm.for_trials pow (good ++ t :: rest) detect out =
         (detect, out ++ Libm.formula_lines pow detect good, Some e)).
Proof.
  split; [intros trials; apply for_trials_instance|].
  intros Hacc Hv good Hg. split; [|split].
  - rewrite <- (app_nil_r good) at 1.
    now rewrite (for_trials_valid pow (1 # 2) half_nonneg (Qle_refl _) Hacc).
  - now apply (formula_lines_unit pow (1 # 2) half_nonneg (Qle_refl _) Hacc).
  - intros t rest e He.
    rewrite (for_trials_valid pow (1 # 2) half_nonneg (Qle_refl _) Hacc)
      by assumption.
    cbn [Libm.for_trials]. now rewrite call_frame_linked, He.
Qed.

Lemma X10_witness :
  Libm.accurate (1 # 2) Libm.nearest /\ valid_model 4096 100 /\
  Forall (fun t => 0 <= t < float_int_limit) [10; 20] /\
  Libm.for_trials Libm.nearest [10; 20] {| n := 4096; k := 100 |} [] =
    ({| n := 4096; k := 100 |},
     [] ++ Libm.formula_lines Libm.nearest {| n := 4096; k := 100 |} [10; 20],
     None).
Proof.
  assert (Hv : valid_model 4096 100) by (unfold valid_model; lia).
  assert (Hg : Forall (fun t => 0 <= t < float_int_limit) [10; 20]).
  { repeat (constructor; [split; [lia | reflexivity]|]). constructor. }
  split; [exact (nearest_accurate (1 # 2) half_nonneg) | split; [exact Hv | split; [exact Hg|]]].
  exact (proj1 (proj2 (X10_loop_over_one_instance Libm.nearest
           {| n := 4096; k := 100 |} [])
           (nearest_accurate (1 # 2) half_nonneg) Hv [10; 20] Hg)).
Defined.

(** One line of the cell, from the two ends of its bracket. *)
Ltac pin pow Hacc s R :=
  rewrite (formula_pinned pow (1 # 16) sixteenth_nonneg sixteenth_half Hacc
             4096 100 s R notebook_model
             ltac:(split; [lia | reflexivity])
             ltac:(vm_compute; repeat split; reflexivity)).

(** X11.  The notebook's run.  The cell builds [Detector(4096, 100)], calls
    it for 10, 20, ..., 100 and prints ten lines; whatever library with an
    error below [9/16] ulp computes the powers, the ten values are the
    doubles that the decimals of the recorded output stand for, no call
    raises and the instance is as it was built. *)
Theorem X11_notebook_output
    (pow : spec_float -> spec_float -> spec_float) :
  Libm.accurate (1 # 16) pow ->
  Libm.notebook_cell pow =
  Ok ({| n := 4096; k := 100 |},
      [ (10, S754_finite false 7890029110583360 (-55));
        (20, S754_finite false 7026101301210682 (-54));
        (30, S754_finite false 4716226887704910 (-53));
        (40, S754_finite false 5655916793832034 (-53));
        (50, S754_finite false 6389821846516458 (-53));
        (60, S754_finite false 6963007344034038 (-53));
        (70, S754_finite false 7410669631359575 (-53));
        (80, S754_finite false 7760297324944730 (-53));
        (90, S754_finite false 8033359245911915 (-53));
        (100, S754_finite false 8246622708876494 (-53)) ],
      None) /\
  reads_as 2189922995883098 16 (S754_finite false 7890029110583360 (-55)) /\
  reads_as 39002697189764357 17 (S754_finite false 7026101301210682 (-54)) /\
  reads_as 5236063680086234 16 (S754_finite false 4716226887704910 (-53)) /\
  reads_as 6279329049876419 16 (S754_finite false 5655916793832034 (-53)) /\
  reads_as 7094127337255405 16 (S754_finite false 6389821846516458 (-53)) /\
  reads_as 7730491073980648 16 (S754_finite false 6963007344034038 (-53)) /\
  reads_as 8227496052625821 16 (S754_finite false 7410669631359575 (-53)) /\
  reads_as 8615660768090649 16 (S754_finite false 7760297324944730 (-53)) /\
  reads_as 8918820399896793 16 (S754_finite false 8033359245911915 (-53)) /\
  reads_as 9155590406791363 16 (S754_finite false 8246622708876494 (-53)).
Proof.
  intros Hacc. split; [|repeat split; vm_compute; reflexivity].
  unfold Libm.notebook_cell.
  change (new_Detector 4096 100) with (Ok {| n := 4096; k := 100 |}).
  change (py_range 10 110 10)
    with (Ok [10; 20; 30; 40; 50; 60; 70; 80; 90; 100]).
  rewrite <- (app_nil_r [10; 20; 30; 40; 50; 60; 70; 80; 90; 100]).
  rewrite (for_trials_valid pow (1 # 16) sixteenth_nonneg sixteenth_half Hacc);
    [|exact notebook_model |
      repeat (constructor; [split; [lia | reflexivity]|]); constructor].
  cbn [Libm.for_trials Libm.formula_lines map app n k].
  pin pow Hacc 10 (S754_finite false 7890029110583360 (-55)).
  pin pow Hacc 20 (S754_finite false 7026101301210682 (-54)).
  pin pow Hacc 30 (S754_finite false 4716226887704910 (-53)).
  pin pow Hacc 40 (S754_finite false 5655916793832034 (-53)).
  pin pow Hacc 50 (S754_finite false 6389821846516458 (-53)).
  pin pow Hacc 60 (S754_finite false 6963007344034038 (-53)).
  pin pow Hacc 70 (S754_finite false 7410669631359575 (-53)).
  pin pow Hacc 80 (S754_finite false 7760297324944730 (-53)).
  pin pow Hacc 90 (S754_finite false 8033359245911915 (-53)).
  pin pow Hacc 100 (S754_finite false 8246622708876494 (-53)).
  reflexivity.
Qed.

Lemma X11_witness :
  Libm.accurate (1 # 16) Libm.nearest /\
  Libm.notebook_cell Libm.nearest =
  Ok ({| n := 4096; k := 100 |},
      [ (10, S754_finite false 7890029110583360 (-55));
        (20, S754_finite false 7026101301210682 (-54));
        (30, S754_finite false 4716226887704910 (-53));
        (40, S754_finite false 5655916793832034 (-53));
        (50, S754_finite false 6389821846516458 (-53));
        (60, S754_finite false 6963007344034038 (-53));
        (70, S754_finite false 7410669631359575 (-53));
        (80, S754_finite false 7760297324944730 (-53));
        (90, S754_finite false 8033359245911915 (-53));
        (100, S754_finite false 8246622708876494 (-53)) ],
      None).
Proof.
  split; [exact (nearest_accurate (1 # 16) sixteenth_nonneg)|].
  exact (proj1 (X11_notebook_output Libm.nearest
                  (nearest_accurate (1 # 16) sixteenth_nonneg))).
Defined.
End Loop.

Section Z3Notebook.

Lemma low32_is_mod (a : Z) : Z3.bvand a Z3.mask32 = a mod 2 ^ 32.
Proof.
  unfold Z3.bvand. change Z3.mask32 with (Z.ones 32).
  apply Z.land_ones. lia.
Qed.

(** The comparison of the low half with [0x1000] pins [rdi_0] modulo
    [2^31]. *)
Lemma low32_solutions (r : Z) :
  ((r + (r * 2 + 20)) * 2) mod 2 ^ 32 = 4096 <-> r mod 2 ^ 31 = 676.
Proof.
  pose proof (Z.div_mod r (2 ^ 31) ltac:(lia)) as E.
  pose proof (Z.mod_pos_bound r (2 ^ 31) ltac:(lia)) as B.
  set (t := r mod 2 ^ 31) in *. set (q := r / 2 ^ 31) in *.
  assert (E1 : (r + (r * 2 + 20)) * 2 = (6 * t + 40) + (3 * q) * 2 ^ 32)
    by (rewrite E; change (2 ^ 32) with (2 * 2 ^ 31); ring).
  rewrite E1, Z_mod_plus_full.
  change (2 ^ 31) with 2147483648 in B. change (2 ^ 32) with 4294967296.
  split; intros H.
  - pose proof (Z.div_mod (6 * t + 40) 4294967296 ltac:(lia)) as D.
    rewrite H in D.
    assert (J : 0 <= (6 * t + 40) / 4294967296 <= 2).
    { split; [apply Z.div_pos; lia|].
      apply Z.lt_succ_r. apply Z.div_lt_upper_bound; lia. }
    lia.
  - rewrite H. reflexivity.
Qed.

Lemma low32_of_wrapped (a : Z) : (a mod 2 ^ 64) mod 2 ^ 32 = a mod 2 ^ 32.
Proof.
  apply Z.mod_mod_divide. exists (2 ^ 32). reflexivity.
Qed.

(** The four data-flow constraints fix every register as a function of
    [rdi_0]. *)
Lemma dataflow_closed_form (m : Z3.regs) :
  Z3.rax_1 m = Z3.rdi_0 m ->
  Z3.rbx_1 m =
    Z3.bvadd 64 (Z3.bvmul 64 (Z3.rax_1 m) (Z3.BitVecVal 2 64))
             (Z3.BitVecVal 20 64) ->
  Z3.rax_2 m = Z3.bvadd 64 (Z3.rax_1 m) (Z3.rbx_1 m) ->
  Z3.rax_3 m = Z3.bvshl 64 (Z3.rax_2 m) (Z3.BitVecVal 1 64) ->
  Z3.rbx_1 m = (2 * Z3.rdi_0 m + 20) mod 2 ^ 64 /\
  Z3.rax_2 m = (3 * Z3.rdi_0 m + 20) mod 2 ^ 64 /\
  Z3.rax_3 m = (6 * Z3.rdi_0 m + 40) mod 2 ^ 64.
Proof.
  intros E1 E2 E3 E4.
  unfold Z3.bvadd, Z3.bvmul, Z3.bvshl, Z3.BitVecVal in *.
  change (2 mod 2 ^ 64) with 2 in *. change (20 mod 2 ^ 64) with 20 in *.
  change (1 mod 2 ^ 64) with 1 in *.
  rewrite Z.shiftl_mul_pow2 in E4 by lia. change (2 ^ 1) with 2 in E4.
  rewrite E1 in E2, E3. rewrite Z.add_mod_idemp_l in E2 by lia.
  assert (B : Z3.rbx_1 m = (2 * Z3.rdi_0 m + 20) mod 2 ^ 64)
    by (rewrite E2; f_equal; ring).
  assert (A2 : Z3.rax_2 m = (3 * Z3.rdi_0 m + 20) mod 2 ^ 64).
  { rewrite E3, B, Z.add_mod_idemp_r by lia. f_equal. ring. }
  split; [exact B | split; [exact A2|]].
  rewrite E4, A2, Z.mul_mod_idemp_l by lia. f_equal. ring.
Qed.

Lemma solutions (m : Z3.regs) :
  Z3.satisfies m Z3.s = true <->
  Z3.rdi_0 m mod 2 ^ 31 = 676 /\
  Z3.rax_1 m = Z3.rdi_0 m /\
  Z3.rbx_1 m = (2 * Z3.rdi_0 m + 20) mod 2 ^ 64 /\
  Z3.rax_2 m = (3 * Z3.rdi_0 m + 20) mod 2 ^ 64 /\
  Z3.rax_3 m = (6 * Z3.rdi_0 m + 40) mod 2 ^ 64.
Proof.
  unfold Z3.satisfies, Z3.s, Z3.add. cbn [app forallb].
  rewrite !andb_true_iff, !Z.eqb_eq, low32_is_mod.
  change (Z3.BitVecVal 4096 64) with 4096.
  assert (K : (6 * Z3.rdi_0 m + 40) mod 2 ^ 32 = 4096 <->
              Z3.rdi_0 m mod 2 ^ 31 = 676).
  { rewrite <- low32_solutions.
    replace ((Z3.rdi_0 m + (Z3.rdi_0 m * 2 + 20)) * 2)
      with (6 * Z3.rdi_0 m + 40) by ring. reflexivity. }
  split.
  - intros (E1 & E2 & E3 & E4 & E5 & _).
    destruct (dataflow_closed_form m E1 E2 E3 E4) as (B & A2 & A3).
    rewrite A3, low32_of_wrapped in E5. apply K in E5. tauto.
  - intros (E0 & E1 & B & A2 & A3).
    assert (F2 : Z3.rbx_1 m =
      Z3.bvadd 64 (Z3.bvmul 64 (Z3.rax_1 m) (Z3.BitVecVal 2 64))
               (Z3.BitVecVal 20 64)).
    { unfold Z3.bvadd, Z3.bvmul, Z3.BitVecVal.
      change (2 mod 2 ^ 64) with 2. change (20 mod 2 ^ 64) with 20.
      rewrite E1, Z.add_mod_idemp_l by lia. rewrite B. f_equal. ring. }
    assert (F3 : Z3.rax_2 m = Z3.bvadd 64 (Z3.rax_1 m) (Z3.rbx_1 m)).
    { unfold Z3.bvadd. rewrite E1, B, Z.add_mod_idemp_r by lia.
      rewrite A2. f_equal. ring. }
    assert (F4 : Z3.rax_3 m = Z3.bvshl 64 (Z3.rax_2 m) (Z3.BitVecVal 1 64)).
    { unfold Z3.bvshl, Z3.BitVecVal. change (1 mod 2 ^ 64) with 1.
      rewrite Z.shiftl_mul_pow2 by lia. change (2 ^ 1) with 2.
      rewrite A2, Z.mul_mod_idemp_l by lia. rewrite A3. f_equal. ring. }
    repeat split; try assumption.
    rewrite A3, low32_of_wrapped. now apply K.
Qed.

(** X12.  The constraints of the assembly example.  A model satisfies the
    five constraints added to the solver exactly when [rdi_0] is [676] modulo
    [2^31] and the other four registers are what the instructions make of
    it: [rax_1 = rdi_0], [rbx_1 = 2 rdi_0 + 20], [rax_2 = 3 rdi_0 + 20] and
    [rax_3 = 6 rdi_0 + 40], each on 64 bits. *)
Theorem X12_assembly_solutions (m : Z3.regs) :
  Z3.satisfies m Z3.s = true <->
  Z3.rdi_0 m mod 2 ^ 31 = 676 /\
  Z3.rax_1 m = Z3.rdi_0 m /\
  Z3.rbx_1 m = (2 * Z3.rdi_0 m + 20) mod 2 ^ 64 /\
  Z3.rax_2 m = (3 * Z3.rdi_0 m + 20) mod 2 ^ 64 /\
  Z3.rax_3 m = (6 * Z3.rdi_0 m + 40) mod 2 ^ 64.
Proof. exact (solutions m). Qed.

(** X13.  [s.check()] is [sat]: the printed model is a model, and no model
    has a smaller [rdi_0]. *)
Theorem X13_printed_model_least :
  Z3.is_bv64 Z3.printed_model /\
  Z3.satisfies Z3.printed_model Z3.s = true /\
  forall m : Z3.regs,
    Z3.is_bv64 m -> Z3.satisfies m Z3.s = true ->
    Z3.rdi_0 Z3.printed_model <= Z3.rdi_0 m.
Proof.
  split; [unfold Z3.is_bv64; cbn; lia|]. split; [vm_compute; reflexivity|].
  intros m Hm Hs. apply solutions in Hs. destruct Hs as (E & _).
  destruct Hm as (_ & _ & _ & Hr & _). cbn [Z3.rdi_0 Z3.printed_model].
  pose proof (Z.div_mod (Z3.rdi_0 m) (2 ^ 31) ltac:(lia)) as D.
  rewrite E in D.
  assert (0 <= Z3.rdi_0 m / 2 ^ 31) by (apply Z.div_pos; lia). lia.
Qed.

(** X14.  On [w] bits, [x == -x] and [x != 0] leave one value, the sign bit
    alone: [32768] on the 16 bits of the notebook, as [solve] printed. *)
Theorem X14_negation_puzzle (w x : Z) :
  1 <= w -> 0 <= x < 2 ^ w ->
  (Z3.negation_puzzle w x = true <-> x = 2 ^ (w - 1)).
Proof.
  intros Hw Hx. unfold Z3.negation_puzzle, Z3.bvneg, Z3.BitVecVal.
  assert (P : 2 ^ w = 2 * 2 ^ (w - 1)).
  { replace w with (Z.succ (w - 1)) at 1 by lia. apply Z.pow_succ_r. lia. }
  assert (P0 : 0 < 2 ^ (w - 1)) by (apply Z.pow_pos_nonneg; lia).
  rewrite Z.mod_0_l by lia.
  rewrite andb_true_iff, negb_true_iff, Z.eqb_eq, Z.eqb_neq.
  destruct (Z.eq_dec x 0) as [-> | N].
  - split; [tauto | lia].
  - assert (E : (- x) mod 2 ^ w = 2 ^ w - x).
    { symmetry. apply (Z.mod_unique _ _ (-1)); lia. }
    rewrite E. lia.
Qed.
Lemma X14_witness :
  1 <= 16 /\ 0 <= 32768 < 2 ^ 16 /\
  (Z3.negation_puzzle 16 32768 = true <-> 32768 = 2 ^ (16 - 1)).
Proof.
  assert (Hw : 1 <= 16) by lia.
  assert (Hx : 0 <= 32768 < 2 ^ 16) by (split; [lia | reflexivity]).
  split; [exact Hw | split; [exact Hx|]].
  exact (X14_negation_puzzle 16 32768 Hw Hx).
Defined.

(** [m5.sexpr()] printed [#xfffffffffffffffb]. *)
Example m5_value : Z3.m5 = 0xfffffffffffffffb.
Proof. reflexivity. Qed.
End Z3Notebook.
